(** * Notes backend: the data-access layer, its schema bootstrap and the
    CORS accessor of the settings object.

    The development follows [src/notes_backend/src/api]:
    - [repository.py]: [_now_iso], [_row_to_note_dict], [_fetch_one],
      [create_note], [get_note], [list_notes], [update_note], [delete_note];
    - [db.py]: [open_connection], [init_db];
    - [models.py]: [NoteOut];
    - [config.py]: [Settings.cors_allow_origins].

    Python [str] values are Rocq strings read as sequences of code points
    below 256.  The SQLite file is a finite map from rowid to the four
    remaining columns together with the AUTOINCREMENT counter.  Statements
    run in a small state-and-exception monad over the database a connection
    is open on. *)

From Stdlib Require Import ZArith NArith Ascii String List Lia.
From stdpp Require Import base option list gmap strings sorting.

Open Scope Z_scope.

(** ** Text *)

Module Text.

(** Decimal digits, as [%0wd] formatting writes them and as a parser reads
    them back. *)
Definition digit (n : N) : ascii := ascii_of_N (48 + n mod 10).

Definition is_digit (c : ascii) : bool :=
  ((48 <=? N_of_ascii c) && (N_of_ascii c <=? 57))%N.

Definition digit_val (c : ascii) : N := (N_of_ascii c - 48)%N.

(** [pad w n] is Python's [%0wd] for [n < 10^w], most significant digit first. *)
Fixpoint pad (w : nat) (n : N) : string :=
  match w with
  | O => EmptyString
  | S w' => String (digit (n / 10 ^ N.of_nat w')) (pad w' n)
  end.

(** Reads exactly [w] decimal digits off the front of [s]. *)
Fixpoint read_dec (w : nat) (acc : N) (s : string) : option (N * string) :=
  match w with
  | O => Some (acc, s)
  | S w' =>
      match s with
      | String c s' =>
          if is_digit c then read_dec w' (acc * 10 + digit_val c)%N s' else None
      | EmptyString => None
      end
  end.

Definition expect (c : ascii) (s : string) : option string :=
  match s with
  | String c' s' => if Ascii.eqb c c' then Some s' else None
  | EmptyString => None
  end.

End Text.

(** ** Time *)

(** An aware [datetime] in UTC, as [datetime.now(timezone.utc)] returns it. *)
Record datetime := mk_datetime {
  year : N; month : N; day : N;
  hour : N; minute : N; second : N; microsecond : N
}.

Definition is_leap (y : N) : bool :=
  ((y mod 4 =? 0) && (negb (y mod 100 =? 0) || (y mod 400 =? 0)))%N.

Definition days_in_month (y m : N) : N :=
  (if m =? 2 then (if is_leap y then 29 else 28)
   else if (m =? 4) || (m =? 6) || (m =? 9) || (m =? 11) then 30
   else 31)%N.

(** The ranges Python's [datetime] constructor enforces. *)
Definition datetime_ok (d : datetime) : bool :=
  ((1 <=? year d) && (year d <=? 9999) &&
   (1 <=? month d) && (month d <=? 12) &&
   (1 <=? day d) && (day d <=? days_in_month (year d) (month d)) &&
   (hour d <? 24) && (minute d <? 60) && (second d <? 60) &&
   (microsecond d <? 1000000))%N.

(** [datetime.isoformat()] of a UTC value: the fraction is written only when
    the microsecond field is not zero, the offset is always [+00:00]. *)
Definition isoformat (d : datetime) : string :=
  Text.pad 4 (year d) +:+ "-" +:+ Text.pad 2 (month d) +:+ "-" +:+
  Text.pad 2 (day d) +:+ "T" +:+
  Text.pad 2 (hour d) +:+ ":" +:+ Text.pad 2 (minute d) +:+ ":" +:+
  Text.pad 2 (second d) +:+
  (if (microsecond d =? 0)%N then "" else "." +:+ Text.pad 6 (microsecond d)) +:+
  "+00:00".

(** repository.py, [_now_iso]: the clock reading [now] rendered as text. *)
Definition _now_iso (now : datetime) : string := isoformat now.

(** Reads back the text [isoformat] writes.  Both pydantic's [datetime]
    validation and SQLite's [datetime()] accept further spellings (other
    offsets, a space for the [T], a bare date); the repository never stores
    those, and this reader rejects them. *)
Definition parse_isoformat (s : string) : option datetime :=
  '(y, s) ← Text.read_dec 4 0%N s;
  s ← Text.expect "-" s;
  '(mo, s) ← Text.read_dec 2 0%N s;
  s ← Text.expect "-" s;
  '(d, s) ← Text.read_dec 2 0%N s;
  s ← Text.expect "T" s;
  '(h, s) ← Text.read_dec 2 0%N s;
  s ← Text.expect ":" s;
  '(mi, s) ← Text.read_dec 2 0%N s;
  s ← Text.expect ":" s;
  '(sec, s) ← Text.read_dec 2 0%N s;
  '(us, s) ← match s with
             | String "." s' => Text.read_dec 6 0%N s'
             | _ => Some (0%N, s)
             end;
  if String.eqb s "+00:00" then
    let r := mk_datetime y mo d h mi sec us in
    if datetime_ok r then Some r else None
  else None.

(** SQLite's [datetime(X)] on such text: [YYYY-MM-DD HH:MM:SS], the
    fraction of the second dropped (the offset being zero, no field moves).
    NULL ([None]) when [X] is no time value; text in the further spellings,
    which the repository never writes, is answered with NULL here as well. *)
Definition sqlite_datetime (s : string) : option string :=
  d ← parse_isoformat s;
  Some (Text.pad 4 (year d) +:+ "-" +:+ Text.pad 2 (month d) +:+ "-" +:+
        Text.pad 2 (day d) +:+ " " +:+
        Text.pad 2 (hour d) +:+ ":" +:+ Text.pad 2 (minute d) +:+ ":" +:+
        Text.pad 2 (second d)).

(** ** The SQLite engine, as far as the statements of the repository go *)

Module sqlite.

(** Exceptions that reach the caller: [sqlite3.OperationalError] for a
    missing table or an exhausted rowid space, [sqlite3.IntegrityError],
    Python's [IndexError] and [AssertionError], pydantic's [ValidationError]. *)
Inductive exn :=
  | NoSuchTable | DatabaseFull | IntegrityError
  | IndexError | AssertionError | ValidationError.

Definition result : Type → Type := sum exn.

#[global] Instance result_ret : MRet result := λ A a, inr a.
#[global] Instance result_bind : MBind result := λ A B k r,
  match r with inl e => inl e | inr a => k a end.

Fixpoint result_mapM {A B} (f : A → result B) (l : list A) : result (list B) :=
  match l with
  | [] => inr []
  | x :: l' => y ← f x; ys ← result_mapM f l'; mret (y :: ys)
  end.

(** A column value: NULL, INTEGER or TEXT. *)
Inductive value := VNull | VInt (n : Z) | VText (s : string).

Definition of_nullable (o : option string) : value :=
  match o with Some s => VText s | None => VNull end.

(** The columns of [notes] besides the [INTEGER PRIMARY KEY], which is the
    key of the table. *)
Record cols := mk_cols {
  title : string;               (* TEXT NOT NULL *)
  content : option string;      (* TEXT *)
  created_at : string;          (* TEXT NOT NULL *)
  updated_at : string           (* TEXT NOT NULL *)
}.

(** The table together with its [sqlite_sequence] entry: the largest rowid
    AUTOINCREMENT has handed out. *)
Record table := mk_table { rows : gmap Z cols; seq : Z }.

Definition empty_table : table := mk_table ∅ 0.

(** What a connection is open on; [None] while no [notes] table exists. *)
Definition database : Type := option table.

Definition io (A : Type) : Type := database → result A * database.

#[global] Instance io_ret : MRet io := λ A a db, (inr a, db).
#[global] Instance io_bind : MBind io := λ A B k m db,
  match m db with
  | (inl e, db') => (inl e, db')
  | (inr a, db') => k a db'
  end.

Definition raise {A} (e : exn) : io A := λ db, (inl e, db).

Definition lift {A} (r : result A) : io A := λ db, (r, db).

(** [sqlite3.Row]: the selected column names with their values. *)
Definition Row : Type := list (string * value).

Definition row_of (i : Z) (c : cols) : Row :=
  [("id", VInt i); ("title", VText (title c)); ("content", of_nullable (content c));
   ("created_at", VText (created_at c)); ("updated_at", VText (updated_at c))].

Fixpoint assoc (k : string) (r : list (string * value)) : option value :=
  match r with
  | [] => None
  | (k', v) :: r' => if String.eqb k k' then Some v else assoc k r'
  end.

(** [row[key]]: [IndexError] when the cursor did not select that column. *)
Definition getitem (r : Row) (k : string) : result value :=
  match assoc k r with Some v => inr v | None => inl IndexError end.

(** [bool(row)]: a [Row] has [__len__] and no [__bool__]. *)
Definition truthy (r : Row) : bool := negb (Nat.eqb (length r) 0).

Definition MAX_ROWID : Z := 9223372036854775807.

Definition max_rowid (m : gmap Z cols) : option Z :=
  foldr (λ p acc, Some (match acc with Some j => Z.max p.1 j | None => p.1 end))
        None (map_to_list m).

(** The rowid of the next INSERT under AUTOINCREMENT: one more than the
    larger of the largest rowid present and the counter; the statement fails
    once either has reached the largest 64-bit integer. *)
Definition new_rowid (t : table) : result Z :=
  let v := match max_rowid (rows t) with
           | None => Some 1
           | Some j => if MAX_ROWID <=? j then None else Some (j + 1)
           end in
  match v with
  | None => inl DatabaseFull
  | Some v =>
      if MAX_ROWID <=? seq t then inl DatabaseFull
      else inr (Z.max v (seq t + 1))
  end.

(** [CREATE TABLE IF NOT EXISTS notes (...)] *)
Definition create_table_if_not_exists : io unit := λ db,
  match db with
  | Some t => (inr (), Some t)
  | None => (inr (), Some empty_table)
  end.

(** [INSERT INTO notes (title, content, created_at, updated_at) VALUES (?, ?, ?, ?)];
    the result is [cursor.lastrowid]. *)
Definition insert (c : cols) : io Z := λ db,
  match db with
  | None => (inl NoSuchTable, db)
  | Some t =>
      match new_rowid t with
      | inl e => (inl e, db)
      | inr v => (inr v, Some (mk_table (<[v := c]> (rows t)) v))
      end
  end.

(** [SELECT * FROM notes WHERE id = ?], then [fetchone()]. *)
Definition select_star_where_id (i : Z) : io (option Row) := λ db,
  match db with
  | None => (inl NoSuchTable, db)
  | Some t => (inr (row_of i <$> rows t !! i), db)
  end.

(** [SELECT id FROM notes WHERE id = ?], then [fetchone()]: the one column. *)
Definition select_id_where_id (i : Z) : io (option Row) := λ db,
  match db with
  | None => (inl NoSuchTable, db)
  | Some t => (inr ((λ _, [("id", VInt i)]) <$> rows t !! i), db)
  end.

(** Columns an UPDATE of the repository assigns. *)
Inductive column := Ctitle | Ccontent | Cupdated_at.

(** One [col = ?] with its bound parameter, [None] binding NULL. *)
Definition assign (c : cols) (a : column * option string) : result cols :=
  match a with
  | (Ctitle, Some s) => inr (mk_cols s (content c) (created_at c) (updated_at c))
  | (Ccontent, v) => inr (mk_cols (title c) v (created_at c) (updated_at c))
  | (Cupdated_at, Some s) => inr (mk_cols (title c) (content c) (created_at c) s)
  | (_, None) => inl IntegrityError
  end.

Fixpoint assign_all (c : cols) (sets : list (column * option string)) : result cols :=
  match sets with
  | [] => inr c
  | a :: sets' => c' ← assign c a; assign_all c' sets'
  end.

(** [UPDATE notes SET ... WHERE id = ?] *)
Definition update_where_id (sets : list (column * option string)) (i : Z) : io unit := λ db,
  match db with
  | None => (inl NoSuchTable, db)
  | Some t =>
      match rows t !! i with
      | None => (inr (), db)
      | Some c =>
          match assign_all c sets with
          | inl e => (inl e, db)
          | inr c' => (inr (), Some (mk_table (<[i := c']> (rows t)) (seq t)))
          end
      end
  end.

(** [DELETE FROM notes WHERE id = ?]; the result is [cursor.rowcount]. *)
Definition delete_where_id (i : Z) : io Z := λ db,
  match db with
  | None => (inl NoSuchTable, db)
  | Some t =>
      match rows t !! i with
      | None => (inr 0, db)
      | Some _ => (inr 1, Some (mk_table (delete i (rows t)) (seq t)))
      end
  end.

(** Text comparison of two [datetime()] results, NULL below every text. *)
Definition key_cmp (a b : option string) : comparison :=
  match a, b with
  | None, None => Eq
  | None, Some _ => Lt
  | Some _, None => Gt
  | Some x, Some y => String.compare x y
  end.

Definition order_key (r : Z * cols) : option string :=
  sqlite_datetime (updated_at r.2).

(** [ORDER BY datetime(updated_at) DESC, id DESC]: [a] is listed no later
    than [b]. *)
Definition listed_before (a b : Z * cols) : bool :=
  match key_cmp (order_key a) (order_key b) with
  | Gt => true
  | Lt => false
  | Eq => b.1 <=? a.1
  end.

Definition order_by (l : list (Z * cols)) : list (Z * cols) :=
  merge_sort (λ a b, Is_true (listed_before a b)) l.

(** [LIMIT ?]: a negative bound means no bound. *)
Definition sql_limit {A} (n : Z) (l : list A) : list A :=
  if n <? 0 then l else take (Z.to_nat n) l.

(** [OFFSET ?]: a negative offset skips nothing. *)
Definition sql_offset {A} (n : Z) (l : list A) : list A := drop (Z.to_nat n) l.

(** [SELECT * FROM notes ORDER BY datetime(updated_at) DESC, id DESC LIMIT ? OFFSET ?],
    then [fetchall()]. *)
Definition select_star_ordered (limit offset : Z) : io (list Row) := λ db,
  match db with
  | None => (inl NoSuchTable, db)
  | Some t =>
      (inr ((λ p, row_of p.1 p.2) <$>
            sql_limit limit (sql_offset offset (order_by (map_to_list (rows t))))), db)
  end.

(** [conn.commit()]: a connection sees its own statements at once, so the
    commit changes nothing this connection can observe. *)
Definition commit : io unit := mret ().

End sqlite.

(** ** models.py *)

Module models.

Import sqlite.

Record NoteOut := mk_NoteOut {
  id : Z;
  title : string;
  content : option string;
  created_at : datetime;
  updated_at : datetime
}.

Definition as_int (v : option value) : result Z :=
  match v with Some (VInt n) => inr n | _ => inl ValidationError end.

Definition as_str (v : option value) : result string :=
  match v with Some (VText s) => inr s | _ => inl ValidationError end.

(** [Optional[str]] with [default=None]: a missing key and NULL both give [None]. *)
Definition as_optional_str (v : option value) : result (option string) :=
  match v with
  | None | Some VNull => inr None
  | Some (VText s) => inr (Some s)
  | Some (VInt _) => inl ValidationError
  end.

Definition as_datetime (v : option value) : result datetime :=
  match v with
  | Some (VText s) =>
      match parse_isoformat s with Some d => inr d | None => inl ValidationError end
  | _ => inl ValidationError
  end.

(** [NoteOut.model_validate(d)] for a [dict] [d]. *)
Definition model_validate (d : list (string * value)) : result NoteOut :=
  i ← as_int (assoc "id" d);
  t ← as_str (assoc "title" d);
  c ← as_optional_str (assoc "content" d);
  ca ← as_datetime (assoc "created_at" d);
  ua ← as_datetime (assoc "updated_at" d);
  mret (mk_NoteOut i t c ca ua).

End models.

(** ** repository.py *)

Module repository.

Import sqlite.

Definition note_dict : Type := list (string * value).

Definition _row_to_note_dict (row : Row) : result note_dict :=
  v_id ← getitem row "id";
  v_title ← getitem row "title";
  v_content ← getitem row "content";
  v_created_at ← getitem row "created_at";
  v_updated_at ← getitem row "updated_at";
  mret [("id", v_id); ("title", v_title); ("content", v_content);
        ("created_at", v_created_at); ("updated_at", v_updated_at)].

(** [query] stands for [conn.execute(sql, params)] followed by [fetchone()]. *)
Definition _fetch_one (query : io (option Row)) : io (option note_dict) :=
  row ← query;
  match row with
  | Some r => if truthy r then d ← lift (_row_to_note_dict r); mret (Some d)
              else mret None
  | None => mret None
  end.

(** [bool(d)] of an optional [dict]. *)
Definition dict_truthy (d : option note_dict) : bool :=
  match d with Some (_ :: _) => true | _ => false end.

Definition create_note (now : datetime) (title : string) (content : option string)
  : io models.NoteOut :=
  let now := _now_iso now in
  note_id ← insert (mk_cols title content now now);
  _ ← commit;
  created ← _fetch_one (select_star_where_id note_id);
  match created with
  | None => raise AssertionError
  | Some d => lift (models.model_validate d)
  end.

Definition get_note (note_id : Z) : io (option models.NoteOut) :=
  row_dict ← _fetch_one (select_star_where_id note_id);
  match row_dict with
  | Some d => if dict_truthy row_dict
              then n ← lift (models.model_validate d); mret (Some n)
              else mret None
  | None => mret None
  end.

Definition list_notes (offset limit : Z) : io (list models.NoteOut) :=
  rows ← select_star_ordered limit offset;
  lift (result_mapM (λ r, d ← _row_to_note_dict r; models.model_validate d) rows).

(** The [fields]/[params] pair that [update_note] builds: one entry per
    argument that is not [None], then the refreshed [updated_at]. *)
Definition update_fields (now : datetime) (title content : option string)
  : list (column * option string) :=
  let fields := [] in
  let fields := match title with
                | Some s => fields ++ [(Ctitle, Some s)]
                | None => fields
                end in
  let fields := match content with
                | Some s => fields ++ [(Ccontent, Some s)]
                | None => fields
                end in
  fields ++ [(Cupdated_at, Some (_now_iso now))].

Definition update_note (now : datetime) (note_id : Z) (title content : option string)
  : io (option models.NoteOut) :=
  exists_ ← _fetch_one (select_id_where_id note_id);
  if negb (dict_truthy exists_) then mret None
  else
    _ ← update_where_id (update_fields now title content) note_id;
    _ ← commit;
    updated ← _fetch_one (select_star_where_id note_id);
    match updated with
    | Some d => if dict_truthy updated
                then n ← lift (models.model_validate d); mret (Some n)
                else mret None
    | None => mret None
    end.

Definition delete_note (note_id : Z) : io bool :=
  rowcount ← delete_where_id note_id;
  _ ← commit;
  mret (0 <? rowcount).

End repository.

(** ** db.py *)

Module db.

Import sqlite.

(** Database files by path. *)
Abbreviation files := (gmap string table).

(** Paths on which SQLite opens a private database that is gone when the
    connection closes: [:memory:] and the empty name. *)
Definition ephemeral (db_path : string) : bool :=
  String.eqb db_path ":memory:" || String.eqb db_path "".

(** [sqlite3.connect(db_path)]: the file's database, a database without
    tables when the file is new or the path is ephemeral. *)
Definition open_connection (fs : files) (db_path : string) : database :=
  if ephemeral db_path then None else fs !! db_path.

(** [conn.close()]: what the connection committed is what the file holds. *)
Definition close (fs : files) (db_path : string) (conn : database) : files :=
  if ephemeral db_path then fs else partial_alter (λ _, conn) db_path fs.

Definition init_db (db_path : string) (fs : files) : result unit * files :=
  let conn := open_connection fs db_path in
  let '(r, conn) := (_ ← create_table_if_not_exists; commit) conn in
  (r, close fs db_path conn).

End db.

(** ** config.py *)

Module config.

(** [str.isspace] on a code point below 256. *)
Definition isspace (c : ascii) : bool :=
  let n := N_of_ascii c in
  ((9 <=? n) && (n <=? 13) || (28 <=? n) && (n <=? 32) || (n =? 133) || (n =? 160))%N.

Fixpoint lstrip (s : string) : string :=
  match s with
  | String c s' => if isspace c then lstrip s' else s
  | EmptyString => EmptyString
  end.

Fixpoint rstrip (s : string) : string :=
  match s with
  | String c s' =>
      match rstrip s' with
      | EmptyString => if isspace c then EmptyString else String c EmptyString
      | r => String c r
      end
  | EmptyString => EmptyString
  end.

(** [s.strip()] *)
Definition strip (s : string) : string := rstrip (lstrip s).

(** [s.split(",")]: one more component than there are commas. *)
Fixpoint split_comma (s : string) : list string :=
  match s with
  | EmptyString => [EmptyString]
  | String c s' =>
      if Ascii.eqb c "," then EmptyString :: split_comma s'
      else match split_comma s' with
           | h :: t => String c h :: t
           | [] => [String c EmptyString]
           end
  end.

(** [bool(s)] of a [str]. *)
Definition nonempty (s : string) : bool := negb (String.eqb s "").

Record Settings := mk_Settings {
  app_title : string;
  app_description : string;
  app_version : string;
  cors_allow_origins_raw : string;
  notes_db_path : string
}.

Definition cors_allow_origins (self : Settings) : list string :=
  let raw := strip (if nonempty (cors_allow_origins_raw self)
                    then cors_allow_origins_raw self else "") in
  if String.eqb raw "" || String.eqb raw "*" then ["*"]
  else foldr (λ o acc, if nonempty (strip o) then strip o :: acc else acc)
             [] (split_comma raw).


End config.

(** ** Calls on one database, one after the other *)

Module calls.

Import sqlite.

(** A call of the repository, as a route handler makes it on a connection
    of its own. *)
Inductive call :=
  | Create (now : datetime) (title : string) (content : option string)
  | Get (note_id : Z)
  | List (offset limit : Z)
  | Update (now : datetime) (note_id : Z) (title content : option string)
  | Delete (note_id : Z).

(** The database the call leaves behind. *)
Definition after (db : database) (c : call) : database :=
  match c with
  | Create now title content => (repository.create_note now title content db).2
  | Get note_id => (repository.get_note note_id db).2
  | List offset limit => (repository.list_notes offset limit db).2
  | Update now note_id title content =>
      (repository.update_note now note_id title content db).2
  | Delete note_id => (repository.delete_note note_id db).2
  end.

(** An update or a delete of note [i]. *)
Definition touches (i : Z) (c : call) : bool :=
  match c with
  | Update _ j _ _ | Delete j => Z.eqb j i
  | _ => false
  end.




End calls.

(** The reading of the clock with the fraction of the second dropped. *)
Definition whole_second (d : datetime) : datetime :=
  mk_datetime (year d) (month d) (day d) (hour d) (minute d) (second d) 0.

(** Python's order on aware datetimes, here all in UTC: field by field. *)
Definition datetime_compare (a b : datetime) : comparison :=
  let fields d := [year d; month d; day d; hour d; minute d; second d; microsecond d] in
  foldr (λ p rest, match N.compare p.1 p.2 with Eq => rest | c => c end)
        Eq (zip (fields a) (fields b)).

(** ** Sample tables *)

Module samples.

Import sqlite.

(** One note, created at 09:30:00 sharp. *)
Definition one_note : table :=
  mk_table {[ 1 := mk_cols "T" (Some "C") "2024-05-17T09:30:00+00:00"
                           "2024-05-17T09:30:00+00:00" ]} 1.

(** Two notes touched within one second: note 1 created at 09:30:00.1 and
    last updated at 09:30:00.9, note 2 created at 09:30:00.5 in between. *)
Definition two_notes : table :=
  mk_table
    (<[ 1 := mk_cols "A" None "2024-05-17T09:30:00.100000+00:00"
                     "2024-05-17T09:30:00.900000+00:00" ]>
       {[ 2 := mk_cols "B" None "2024-05-17T09:30:00.500000+00:00"
                       "2024-05-17T09:30:00.500000+00:00" ]}) 2.

Definition note_A : models.NoteOut :=
  models.mk_NoteOut 1 "A" None (mk_datetime 2024 5 17 9 30 0 100000)
                    (mk_datetime 2024 5 17 9 30 0 900000).

Definition note_B : models.NoteOut :=
  models.mk_NoteOut 2 "B" None (mk_datetime 2024 5 17 9 30 0 500000)
                    (mk_datetime 2024 5 17 9 30 0 500000).

(** The same second reached by the repository alone: two notes created
    0.4 s apart by a wall clock that was set back in between. *)
Definition set_back_calls : list calls.call :=
  [calls.Create (mk_datetime 2024 5 17 9 30 0 900000) "A" None;
   calls.Create (mk_datetime 2024 5 17 9 30 0 500000) "B" None].

(** A clock reading, the note [create_note] returns for it on [one_note],
    the database it leaves, and some later calls that leave note 2 alone. *)
Definition clock_0930 : datetime := mk_datetime 2024 5 17 9 30 0 250000.

Definition note_2 : models.NoteOut :=
  models.mk_NoteOut 2 "B" None clock_0930 clock_0930.

Definition with_note_2 : database :=
  Some (mk_table (<[ 2 := mk_cols "B" None (isoformat clock_0930) (isoformat clock_0930) ]>
                    (rows one_note)) 2).

Definition later_calls : list calls.call :=
  [calls.Create clock_0930 "D" None; calls.Delete 1;
   calls.Update clock_0930 3 (Some "E") None; calls.List 0 10; calls.Get 2;
   calls.Delete 3].

End samples.

(** ** models.py: the request bodies *)

Module payloads.

Record NoteCreate := mk_NoteCreate { title : string; content : option string }.

(** [NoteCreate] from the fields of a request body: the title is required
    and has [min_length=1]. *)
Definition NoteCreate_validate (title content : option string) : option NoteCreate :=
  match title with
  | Some s => if (1 <=? String.length s)%nat then Some (mk_NoteCreate s content) else None
  | None => None
  end.

Record NoteUpdate := mk_NoteUpdate { new_title : option string; new_content : option string }.

(** The [model_validator] of [NoteUpdate]; [None] stands for its [ValueError]. *)
Definition at_least_one_field (self : NoteUpdate) : option NoteUpdate :=
  match new_title self, new_content self with
  | None, None => None
  | _, _ => Some self
  end.

Definition NoteUpdate_validate (title content : option string) : option NoteUpdate :=
  at_least_one_field (mk_NoteUpdate title content).

End payloads.

(** ** config.py: the constructor and the cached accessor *)

Module environment.

Import config.

(** The process environment, after [load_dotenv()]. *)
Abbreviation environ := (gmap string string).

(** [os.getenv(name, default)] *)
Definition getenv (env : environ) (name default : string) : string :=
  match env !! name with Some v => v | None => default end.

(** [arg or fallback] for an [Optional[str]] argument. *)
Definition or_else (arg : option string) (fallback : string) : string :=
  match arg with
  | Some s => if nonempty s then s else fallback
  | None => fallback
  end.

(** [Settings.__init__] *)
Definition __init__ (env : environ)
    (app_title app_description app_version cors_allow_origins notes_db_path : option string)
  : Settings :=
  mk_Settings
    (or_else app_title (getenv env "APP_TITLE" "Notes API"))
    (or_else app_description
       (getenv env "APP_DESCRIPTION"
          "A simple FastAPI backend for managing notes (create, list, fetch, update, delete)."))
    (or_else app_version (getenv env "APP_VERSION" "0.1.0"))
    (or_else cors_allow_origins (getenv env "CORS_ALLOW_ORIGINS" "*"))
    (or_else notes_db_path (getenv env "NOTES_DB_PATH" "notes.db")).

(** [get_settings] under [lru_cache(maxsize=1)]: the cache holds the object
    of the first call. *)
Definition get_settings (cache : option Settings) (env : environ)
  : Settings * option Settings :=
  match cache with
  | Some s => (s, cache)
  | None => let s := __init__ env None None None None None in (s, Some s)
  end.

End environment.

(** ** routes/notes.py and main.py *)

Module routes.

Import sqlite.

Definition HTTP_200_OK : Z := 200.
Definition HTTP_201_CREATED : Z := 201.
Definition HTTP_204_NO_CONTENT : Z := 204.
Definition HTTP_404_NOT_FOUND : Z := 404.

Inductive body :=
  | Note (n : models.NoteOut)
  | Notes (l : list models.NoteOut)
  | Health (status app version : string)
  | Empty.

(** How a request ends: the handler returned, it raised [HTTPException],
    the declared constraints on the body, the path or the query rejected the
    request before the handler ran, or an exception of the repository went
    through. *)
Inductive outcome :=
  | Response (status_code : Z) (b : body)
  | HTTPException (status_code : Z) (detail : string)
  | RequestValidationError
  | Raised (e : exn).

(** [_get_db_conn]: a connection on the configured path for one request,
    closed when the handler is done, however it ends. *)
Definition _get_db_conn {A} (settings : config.Settings) (handler : io A)
    (fs : db.files) : result A * db.files :=
  let conn := db.open_connection fs (config.notes_db_path settings) in
  let '(r, conn) := handler conn in
  (r, db.close fs (config.notes_db_path settings) conn).

Definition create_note_endpoint (settings : config.Settings) (now : datetime)
    (title content : option string) (fs : db.files) : outcome * db.files :=
  match payloads.NoteCreate_validate title content with
  | None => (RequestValidationError, fs)
  | Some payload =>
      let '(r, fs) :=
        _get_db_conn settings
          (repository.create_note now (payloads.title payload) (payloads.content payload))
          fs in
      (match r with
       | inr n => Response HTTP_201_CREATED (Note n)
       | inl e => Raised e
       end, fs)
  end.

(** [offset: Query(0, ge=0)], [limit: Query(100, ge=1, le=500)] *)
Definition list_notes_endpoint (settings : config.Settings)
    (offset limit : option Z) (fs : db.files) : outcome * db.files :=
  let offset := default 0 offset in
  let limit := default 100 limit in
  if (0 <=? offset) && (1 <=? limit) && (limit <=? 500) then
    let '(r, fs) := _get_db_conn settings (repository.list_notes offset limit) fs in
    (match r with
     | inr l => Response HTTP_200_OK (Notes l)
     | inl e => Raised e
     end, fs)
  else (RequestValidationError, fs).

(** [note_id: Path(..., ge=1)] *)
Definition get_note_endpoint (settings : config.Settings) (note_id : Z)
    (fs : db.files) : outcome * db.files :=
  if 1 <=? note_id then
    let '(r, fs) := _get_db_conn settings (repository.get_note note_id) fs in
    (match r with
     | inr (Some note) => Response HTTP_200_OK (Note note)
     | inr None => HTTPException HTTP_404_NOT_FOUND "Note not found"
     | inl e => Raised e
     end, fs)
  else (RequestValidationError, fs).

Definition update_note_endpoint (settings : config.Settings) (now : datetime)
    (note_id : Z) (title content : option string) (fs : db.files)
  : outcome * db.files :=
  match payloads.NoteUpdate_validate title content with
  | None => (RequestValidationError, fs)
  | Some payload =>
      if 1 <=? note_id then
        let '(r, fs) :=
          _get_db_conn settings
            (repository.update_note now note_id (payloads.new_title payload)
               (payloads.new_content payload)) fs in
        (match r with
         | inr (Some updated) => Response HTTP_200_OK (Note updated)
         | inr None => HTTPException HTTP_404_NOT_FOUND "Note not found"
         | inl e => Raised e
         end, fs)
      else (RequestValidationError, fs)
  end.

Definition delete_note_endpoint (settings : config.Settings) (note_id : Z)
    (fs : db.files) : outcome * db.files :=
  if 1 <=? note_id then
    let '(r, fs) := _get_db_conn settings (repository.delete_note note_id) fs in
    (match r with
     | inr true => Response HTTP_204_NO_CONTENT Empty
     | inr false => HTTPException HTTP_404_NOT_FOUND "Note not found"
     | inl e => Raised e
     end, fs)
  else (RequestValidationError, fs).

(** main.py, [on_startup] *)
Definition on_startup (settings : config.Settings) (fs : db.files)
  : result unit * db.files :=
  db.init_db (config.notes_db_path settings) fs.

(** main.py, [health_check] *)
Definition health_check (settings : config.Settings) : body :=
  Health "ok" (config.app_title settings) (config.app_version settings).

(** The requests the application routes, as method and path with their
    parameters; a POST or a PUT comes with the clock reading its handler
    will take. *)
Inductive request :=
  | POST_notes (now : datetime) (title content : option string)
  | GET_notes (offset limit : option Z)
  | GET_note (note_id : Z)
  | PUT_note (now : datetime) (note_id : Z) (title content : option string)
  | DELETE_note (note_id : Z)
  | GET_root.

(** The router of [app]: the health check at [/], the notes router under
    [/notes]. *)
Definition handle (settings : config.Settings) (req : request) (fs : db.files)
  : outcome * db.files :=
  match req with
  | POST_notes now title content => create_note_endpoint settings now title content fs
  | GET_notes offset limit => list_notes_endpoint settings offset limit fs
  | GET_note note_id => get_note_endpoint settings note_id fs
  | PUT_note now note_id title content =>
      update_note_endpoint settings now note_id title content fs
  | DELETE_note note_id => delete_note_endpoint settings note_id fs
  | GET_root => (Response HTTP_200_OK (health_check settings), fs)
  end.

End routes.

(** ** Tables that grew from the empty one *)

Module invariants.

Import sqlite.

(** Ids are at least 1 and at most the counter. *)
Definition ids_bounded (t : table) : Prop :=
  0 ≤ seq t ∧ ∀ i, is_Some (rows t !! i) → 1 ≤ i ≤ seq t.

(** Every stored note has a title that is not the empty string. *)
Definition titled (fs : gmap string table) : Prop :=
  ∀ (p : string) (t : table) (i : Z) (c : cols),
    fs !! p = Some t → rows t !! i = Some c → title c ≠ "".

End invariants.

(** ** Sample settings and files *)

Module fixtures.

(** The settings of an empty environment, and the file they point to with
    the table [one_note] in it. *)
Definition default_settings : config.Settings := (environment.get_settings None ∅).1.

Definition one_note_file : db.files := {[ "notes.db" := samples.one_note ]}.

End fixtures.

(** * Properties *)

(** ** Text and time *)

Example isoformat_with_fraction :
  isoformat (mk_datetime 2024 1 2 3 4 5 6789) = "2024-01-02T03:04:05.006789+00:00".
Proof. reflexivity. Qed.

Example isoformat_whole_second :
  isoformat (mk_datetime 2024 1 2 3 4 5 0) = "2024-01-02T03:04:05+00:00".
Proof. reflexivity. Qed.

Example sqlite_datetime_drops_fraction :
  sqlite_datetime "2024-01-02T03:04:05.006789+00:00" = Some "2024-01-02 03:04:05".
Proof. reflexivity. Qed.

Example cors_example :
  config.cors_allow_origins
    (config.mk_Settings "" "" "" " http://a.example , ,http://b.example," "") =
  ["http://a.example"; "http://b.example"].
Proof. reflexivity. Qed.

Example cors_only_commas :
  config.cors_allow_origins (config.mk_Settings "" "" "" " , " "") = [].
Proof. reflexivity. Qed.

Lemma N_of_digit (n : N) : N_of_ascii (Text.digit n) = (48 + n mod 10)%N.
Proof.
  unfold Text.digit. apply N_ascii_embedding.
  assert (n mod 10 < 10)%N by (apply N.mod_upper_bound; lia).
  generalize dependent (n mod 10)%N; intros k Hk. lia.
Qed.

Lemma is_digit_digit (n : N) : Text.is_digit (Text.digit n) = true.
Proof.
  unfold Text.is_digit. rewrite N_of_digit.
  assert (n mod 10 < 10)%N by (apply N.mod_upper_bound; lia).
  generalize dependent (n mod 10)%N; intros k Hk.
  apply andb_true_intro; split; apply N.leb_le; lia.
Qed.

Lemma digit_val_digit (n : N) : Text.digit_val (Text.digit n) = (n mod 10)%N.
Proof. unfold Text.digit_val. rewrite N_of_digit.
  generalize (n mod 10)%N; intros k. lia. Qed.

Lemma append_cons (c : ascii) (s r : string) : String c s +:+ r = String c (s +:+ r).
Proof. reflexivity. Qed.

Lemma read_dec_pad (w : nat) : ∀ (n acc : N) (rest : string),
  Text.read_dec w acc (Text.pad w n +:+ rest) =
  Some ((acc * 10 ^ N.of_nat w + n mod 10 ^ N.of_nat w)%N, rest).
Proof.
  induction w as [|w IH]; intros n acc rest.
  - simpl. rewrite N.mod_1_r. do 2 f_equal. lia.
  - cbn [Text.pad Text.read_dec String.append].
    rewrite append_cons. cbn [Text.read_dec]. rewrite is_digit_digit, digit_val_digit, IH.
    do 2 f_equal.
    rewrite Nat2N.inj_succ, N.pow_succ_r'.
    rewrite (N.mul_comm 10 (10 ^ N.of_nat w)).
    rewrite N.Div0.mod_mul_r. lia.
Qed.

Lemma read_dec_pad_small (w : nat) (n : N) (rest : string) :
  (n < 10 ^ N.of_nat w)%N →
  Text.read_dec w 0 (Text.pad w n +:+ rest) = Some (n, rest).
Proof.
  intros Hn. rewrite read_dec_pad, N.mod_small by done. do 2 f_equal.
Qed.

Lemma days_in_month_le (y m : N) : (days_in_month y m <= 31)%N.
Proof. unfold days_in_month. repeat case_match; lia. Qed.

Lemma datetime_ok_bounds (d : datetime) :
  datetime_ok d = true →
  (year d < 10 ^ N.of_nat 4 ∧ month d < 10 ^ N.of_nat 2 ∧ day d < 10 ^ N.of_nat 2 ∧
   hour d < 10 ^ N.of_nat 2 ∧ minute d < 10 ^ N.of_nat 2 ∧
   second d < 10 ^ N.of_nat 2 ∧ microsecond d < 10 ^ N.of_nat 6)%N.
Proof.
  unfold datetime_ok. rewrite !andb_true_iff.
  rewrite !N.leb_le, !N.ltb_lt.
  pose proof (days_in_month_le (year d) (month d)).
  change (10 ^ N.of_nat 4)%N with 10000%N.
  change (10 ^ N.of_nat 2)%N with 100%N.
  change (10 ^ N.of_nat 6)%N with 1000000%N.
  lia.
Qed.

Lemma append_nil (r : string) : "" +:+ r = r.
Proof. reflexivity. Qed.

Lemma expect_cons (c : ascii) (r : string) : Text.expect c (String c r) = Some r.
Proof. unfold Text.expect. by rewrite Ascii.eqb_refl. Qed.

Ltac read_field :=
  rewrite read_dec_pad_small by done;
  cbn [mbind option_bind];
  rewrite ?append_cons, ?append_nil, ?expect_cons;
  cbn [mbind option_bind].

Lemma parse_isoformat_isoformat (d : datetime) :
  datetime_ok d = true → parse_isoformat (isoformat d) = Some d.
Proof.
  intros Hok. destruct (datetime_ok_bounds d Hok) as (Hy & Hmo & Hd & Hh & Hmi & Hs & Hus).
  unfold parse_isoformat, isoformat.
  do 6 read_field.
  destruct (microsecond d =? 0)%N eqn:Hz.
  - apply N.eqb_eq in Hz. rewrite append_nil. cbn.
    destruct d; simpl in *. subst. by rewrite Hok.
  - rewrite ?append_cons, ?append_nil. read_field. cbn.
    destruct d; simpl in *. by rewrite Hok.
Qed.

(** ** One statement at a time *)

Import sqlite samples.

Arguments parse_isoformat : simpl never.
Arguments sqlite_datetime : simpl never.
Arguments models.model_validate : simpl never.
Arguments repository._row_to_note_dict : simpl never.

Lemma row_to_note_dict_row_of (i : Z) (c : cols) :
  repository._row_to_note_dict (row_of i c) = inr (row_of i c).
Proof. reflexivity. Qed.

Lemma row_to_note_dict_id_only (i : Z) :
  repository._row_to_note_dict [("id", VInt i)] = inl IndexError.
Proof. reflexivity. Qed.

Lemma fetch_one_star (t : table) (i : Z) :
  repository._fetch_one (select_star_where_id i) (Some t) =
  (inr (row_of i <$> rows t !! i), Some t).
Proof.
  unfold repository._fetch_one, select_star_where_id, mbind, io_bind. cbn.
  destruct (rows t !! i) as [c|]; reflexivity.
Qed.

Lemma fetch_one_id (t : table) (i : Z) :
  repository._fetch_one (select_id_where_id i) (Some t) =
  (match rows t !! i with Some _ => inl IndexError | None => inr None end, Some t).
Proof.
  unfold repository._fetch_one, select_id_where_id, mbind, io_bind. cbn.
  destruct (rows t !! i) as [c|]; reflexivity.
Qed.

Lemma get_note_run (t : table) (i : Z) :
  repository.get_note i (Some t) =
  (match rows t !! i with
   | Some c => n ← models.model_validate (row_of i c); mret (Some n)
   | None => inr None
   end, Some t).
Proof.
  unfold repository.get_note. unfold mbind at 1, io_bind. rewrite fetch_one_star.
  destruct (rows t !! i) as [c|]; [|reflexivity]. cbn.
  unfold lift, mbind, io_bind, result_bind.
  by destruct (models.model_validate (row_of i c)).
Qed.

Lemma update_note_run (now : datetime) (t : table) (i : Z) (ti co : option string) :
  repository.update_note now i ti co (Some t) =
  (match rows t !! i with Some _ => inl IndexError | None => inr None end, Some t).
Proof.
  unfold repository.update_note. unfold mbind at 1, io_bind. rewrite fetch_one_id.
  by destruct (rows t !! i).
Qed.

Lemma delete_note_run (t : table) (i : Z) :
  repository.delete_note i (Some t) =
  match rows t !! i with
  | Some _ => (inr true, Some (mk_table (delete i (rows t)) (seq t)))
  | None => (inr false, Some t)
  end.
Proof.
  unfold repository.delete_note, delete_where_id, commit, mbind, io_bind. cbn.
  by destruct (rows t !! i).
Qed.

Lemma create_note_run (now : datetime) (t : table) (ti : string) (co : option string) (v : Z) :
  new_rowid t = inr v →
  let c := mk_cols ti co (isoformat now) (isoformat now) in
  repository.create_note now ti co (Some t) =
  (models.model_validate (row_of v c), Some (mk_table (<[v := c]> (rows t)) v)).
Proof.
  intros Hv c. unfold repository.create_note, _now_iso. fold c.
  unfold mbind at 1 2 3, io_bind, insert, commit. rewrite Hv. cbn.
  rewrite fetch_one_star. cbn. rewrite lookup_insert_eq. reflexivity.
Qed.

(** ** Rowids *)

Lemma max_rowid_empty_iff (m : gmap Z cols) : max_rowid m = None ↔ m = ∅.
Proof.
  unfold max_rowid. rewrite <- map_to_list_empty_iff.
  destruct (map_to_list m) as [|p l]; simpl; split; congruence.
Qed.

Lemma max_rowid_upper (m : gmap Z cols) (j : Z) :
  max_rowid m = Some j → ∀ i, is_Some (m !! i) → i ≤ j.
Proof.
  unfold max_rowid. intros Hj i [c Hc].
  apply elem_of_map_to_list in Hc.
  revert j Hj. induction (map_to_list m) as [|p l IH]; intros j Hj.
  - by apply elem_of_nil in Hc.
  - simpl in Hj.
    destruct (foldr _ None l) as [k|] eqn:Hk.
    + injection Hj as <-. apply elem_of_cons in Hc as [<- | Hc]; simpl; [lia|].
      specialize (IH Hc k eq_refl). lia.
    + injection Hj as <-. apply elem_of_cons in Hc as [<- | Hc]; simpl; [lia|].
      destruct l; [by apply elem_of_nil in Hc | discriminate Hk].
Qed.

(** A rowid that AUTOINCREMENT hands out is above every rowid in the table
    and above the counter. *)
Lemma new_rowid_fresh (t : table) (v : Z) :
  new_rowid t = inr v →
  rows t !! v = None ∧ seq t < v ∧ ∀ i, is_Some (rows t !! i) → i < v.
Proof.
  unfold new_rowid. intros Hv.
  assert (seq t < v ∧ ∀ i, is_Some (rows t !! i) → i < v) as [Hs Hlt].
  { destruct (max_rowid (rows t)) as [j|] eqn:Hj.
    - destruct (MAX_ROWID <=? j); [discriminate|].
      destruct (MAX_ROWID <=? seq t); [discriminate|].
      injection Hv as <-. split; [lia|].
      intros i Hi. pose proof (max_rowid_upper _ _ Hj i Hi). lia.
    - destruct (MAX_ROWID <=? seq t); [discriminate|].
      injection Hv as <-. split; [lia|].
      apply max_rowid_empty_iff in Hj. rewrite Hj.
      intros i [c Hc]. by rewrite lookup_empty in Hc. }
  split_and!; [|done..].
  destruct (rows t !! v) as [c|] eqn:Hc; [|done].
  specialize (Hlt v (mk_is_Some _ _ Hc)). lia.
Qed.

Lemma new_rowid_error (t : table) (e : exn) : new_rowid t = inl e → e = DatabaseFull.
Proof.
  unfold new_rowid. destruct (max_rowid (rows t)) as [j|];
    repeat case_match; congruence.
Qed.

Lemma max_rowid_attained (m : gmap Z cols) (j : Z) :
  max_rowid m = Some j → is_Some (m !! j).
Proof.
  unfold max_rowid. intros Hj.
  assert (∃ c, (j, c) ∈ map_to_list m) as [c Hc].
  { revert j Hj. induction (map_to_list m) as [|[i c] l IH]; intros j Hj; [discriminate|].
    simpl in Hj. destruct (foldr _ None l) as [k|] eqn:Hk.
    - injection Hj as <-. destruct (Z.max_spec i k) as [[_ ->] | [_ ->]].
      + destruct (IH k eq_refl) as [c' Hc']. exists c'. by apply elem_of_cons; right.
      + exists c. by apply elem_of_cons; left.
    - injection Hj as <-. exists c. by apply elem_of_cons; left. }
  apply elem_of_map_to_list in Hc. by exists c.
Qed.

(** The INSERT goes through exactly when neither the counter nor a rowid in
    the table has reached the largest 64-bit integer. *)
Lemma new_rowid_room (t : table) :
  (seq t < MAX_ROWID ∧ ∀ i, is_Some (rows t !! i) → i < MAX_ROWID) ↔
  ∃ v, new_rowid t = inr v.
Proof.
  unfold new_rowid. split.
  - intros [Hs Hr].
    destruct (max_rowid (rows t)) as [j|] eqn:Hj.
    + pose proof (Hr j (max_rowid_attained _ _ Hj)).
      destruct (MAX_ROWID <=? j) eqn:E1; [apply Z.leb_le in E1; lia|].
      destruct (MAX_ROWID <=? seq t) eqn:E2; [apply Z.leb_le in E2; lia|]. eauto.
    + destruct (MAX_ROWID <=? seq t) eqn:E2; [apply Z.leb_le in E2; lia|]. eauto.
  - intros [v Hv].
    destruct (max_rowid (rows t)) as [j|] eqn:Hj.
    + destruct (MAX_ROWID <=? j) eqn:E1; [discriminate|].
      destruct (MAX_ROWID <=? seq t) eqn:E2; [discriminate|].
      apply Z.leb_gt in E1, E2. split; [done|].
      intros i Hi. pose proof (max_rowid_upper _ _ Hj i Hi). lia.
    + destruct (MAX_ROWID <=? seq t) eqn:E2; [discriminate|].
      apply Z.leb_gt in E2. split; [done|].
      apply max_rowid_empty_iff in Hj. rewrite Hj.
      intros i [c Hc]. by rewrite lookup_empty in Hc.
Qed.

Lemma model_validate_error (d : list (string * value)) (e : exn) :
  models.model_validate d = inl e → e = ValidationError.
Proof.
  assert (Hint : ∀ v e', models.as_int v = inl e' → e' = ValidationError)
    by (intros [[]|] e'; simpl; congruence).
  assert (Hstr : ∀ v e', models.as_str v = inl e' → e' = ValidationError)
    by (intros [[]|] e'; simpl; congruence).
  assert (Hopt : ∀ v e', models.as_optional_str v = inl e' → e' = ValidationError)
    by (intros [[]|] e'; simpl; congruence).
  assert (Hdt : ∀ v e', models.as_datetime v = inl e' → e' = ValidationError).
  { intros [[| |s]|] e'; simpl; try congruence. destruct (parse_isoformat s); congruence. }
  unfold models.model_validate, mbind, result_bind.
  destruct (models.as_int _) eqn:H1; [intros [= <-]; eauto|].
  destruct (models.as_str _) eqn:H2; [intros [= <-]; eauto|].
  destruct (models.as_optional_str _) eqn:H3; [intros [= <-]; eauto|].
  destruct (models.as_datetime (assoc "created_at" d)) eqn:H4; [intros [= <-]; eauto|].
  destruct (models.as_datetime (assoc "updated_at" d)) eqn:H5; [intros [= <-]; eauto|].
  discriminate.
Qed.

Lemma model_validate_row_of (i : Z) (c : cols) :
  models.model_validate (row_of i c) =
  match parse_isoformat (created_at c), parse_isoformat (updated_at c) with
  | Some ca, Some ua => inr (models.mk_NoteOut i (title c) (content c) ca ua)
  | _, _ => inl ValidationError
  end.
Proof.
  unfold models.model_validate, row_of. cbn.
  destruct (content c); cbn;
    destruct (parse_isoformat (created_at c)), (parse_isoformat (updated_at c)); reflexivity.
Qed.

(** ** [create_note] *)

Lemma create_note_no_table (now : datetime) (ti : string) (co : option string) :
  repository.create_note now ti co None = (inl NoSuchTable, None).
Proof. reflexivity. Qed.

Lemma create_note_full (now : datetime) (t : table) (ti : string) (co : option string) (e : exn) :
  new_rowid t = inl e →
  repository.create_note now ti co (Some t) = (inl DatabaseFull, Some t).
Proof.
  intros He. pose proof (new_rowid_error _ _ He) as ->.
  unfold repository.create_note, mbind, io_bind, insert. by rewrite He.
Qed.

(** C3. [create_note] on a table that can take one more row returns a note
    whose id is the rowid AUTOINCREMENT hands out, an id no row of the table
    had; its title and content are the arguments (so in particular for every
    non-empty title), both of its timestamps are the clock reading, hence
    equal; and the returned value is the row as the table now holds it:
    [get_note] on the new id returns the same value. *)
Theorem create_note_returns_persisted_row
    (now : datetime) (t : table) (ti : string) (co : option string) (v : Z) :
  datetime_ok now = true →
  new_rowid t = inr v →
  ∃ (n : models.NoteOut) (t' : table),
    repository.create_note now ti co (Some t) = (inr n, Some t') ∧
    models.id n = v ∧ rows t !! v = None ∧
    models.title n = ti ∧ models.content n = co ∧
    models.created_at n = models.updated_at n ∧ models.created_at n = now ∧
    rows t' !! v = Some (mk_cols ti co (isoformat now) (isoformat now)) ∧
    repository.get_note v (Some t') = (inr (Some n), Some t').
Proof.
  intros Hok Hv.
  set (c := mk_cols ti co (isoformat now) (isoformat now)).
  exists (models.mk_NoteOut v ti co now now), (mk_table (<[v := c]> (rows t)) v).
  assert (Hval : models.model_validate (row_of v c) = inr (models.mk_NoteOut v ti co now now)).
  { rewrite model_validate_row_of. simpl. by rewrite parse_isoformat_isoformat. }
  rewrite (create_note_run now t ti co v Hv). fold c. rewrite Hval.
  destruct (new_rowid_fresh t v Hv) as (Hfresh & _ & _).
  rewrite get_note_run. cbn [rows]. rewrite lookup_insert_eq, Hval.
  by split_and!.
Qed.

Lemma create_note_returns_persisted_row_witness :
  datetime_ok clock_0930 = true ∧
  new_rowid empty_table = inr 1 ∧
  ∃ (n : models.NoteOut) (t' : table),
    repository.create_note clock_0930 "T" (Some "C") (Some empty_table) = (inr n, Some t') ∧
    models.id n = 1 ∧ rows empty_table !! 1 = None ∧
    models.title n = "T" ∧ models.content n = Some "C" ∧
    models.created_at n = models.updated_at n ∧
    models.created_at n = clock_0930 ∧
    rows t' !! 1 = Some (mk_cols "T" (Some "C") (isoformat clock_0930)
                          (isoformat clock_0930)) ∧
    repository.get_note 1 (Some t') = (inr (Some n), Some t').
Proof.
  split; [reflexivity|]. split; [reflexivity|].
  apply (create_note_returns_persisted_row clock_0930 empty_table "T" (Some "C") 1);
    reflexivity.
Defined.

(** C9. Whenever the INSERT goes through, the SELECT on its [lastrowid]
    finds the row just added, so the assertion in [create_note] holds;
    whatever the table, the title and the content, the call does not end in
    [AssertionError]. *)
Theorem create_note_assertion_never_fires
    (now : datetime) (ti : string) (co : option string) (db : database) :
  (∀ c : cols,
     match insert c db with
     | (inr v, db') =>
         repository._fetch_one (select_star_where_id v) db' = (inr (Some (row_of v c)), db')
     | (inl _, _) => True
     end) ∧
  (repository.create_note now ti co db).1 ≠ inl AssertionError.
Proof.
  split.
  - intros c. unfold insert.
    destruct db as [t|]; [|done].
    destruct (new_rowid t) as [e|v]; [done|].
    rewrite fetch_one_star. simpl. by rewrite lookup_insert_eq.
  - destruct db as [t|]; [|by rewrite create_note_no_table].
    destruct (new_rowid t) as [e|v] eqn:Hv.
    + by rewrite (create_note_full now t ti co e Hv).
    + rewrite (create_note_run now t ti co v Hv). simpl.
      intros H. by apply model_validate_error in H.
Qed.

(** ** [delete_note] *)


(** ** [update_note] *)



(** The existence probe selects the [id] column alone, and [_fetch_one]
    reads all five columns off the row it gets: on an id the table has a
    row of, [update_note] ends in [IndexError] before any UPDATE runs. *)
Lemma update_note_existing_raises
    (now : datetime) (t : table) (i : Z) (c : cols) (ti co : option string) :
  rows t !! i = Some c →
  repository.update_note now i ti co (Some t) = (inl IndexError, Some t).
Proof. intros Hi. by rewrite update_note_run, Hi. Qed.

Lemma update_note_keeps_database
    (now : datetime) (db : database) (i : Z) (ti co : option string) :
  (repository.update_note now i ti co db).2 = db.
Proof.
  destruct db as [t|]; [|reflexivity].
  by rewrite update_note_run.
Qed.

(** C2, at a table with the single note 1: the update that supplies a new
    title ends in [IndexError]; nothing is returned, the title is not set and
    [updated_at] is not refreshed. *)
Theorem update_note_title_raises :
  repository.update_note (mk_datetime 2024 5 17 9 31 0 0) 1 (Some "T2") None
    (Some one_note) = (inl IndexError, Some one_note) ∧
  title <$> rows one_note !! 1 = Some "T" ∧
  updated_at <$> rows one_note !! 1 = Some "2024-05-17T09:30:00+00:00".
Proof.
  split; [|split; reflexivity].
  by apply (update_note_existing_raises _ one_note 1
              (mk_cols "T" (Some "C") "2024-05-17T09:30:00+00:00" "2024-05-17T09:30:00+00:00")).
Qed.

(** The UPDATE that lines 76-92 put together, run on its own. *)
Lemma assign_all_update_fields (now : datetime) (ti co : option string) (c : cols) :
  assign_all c (repository.update_fields now ti co) =
  inr (mk_cols (default (title c) ti)
               (match co with Some s => Some s | None => content c end)
               (created_at c) (isoformat now)).
Proof. destruct c, ti, co; reflexivity. Qed.

(** C10. A row whose content is not NULL keeps a content that is not NULL
    through every [update_note]: in the database the call leaves behind, and
    likewise in the row that the UPDATE built from the arguments writes,
    which binds a parameter only for an argument that is not [None]. *)
Theorem update_note_never_nulls_content
    (now : datetime) (t : table) (i : Z) (c : cols) (ti co : option string) :
  rows t !! i = Some c →
  content c ≠ None →
  (∃ (t' : table) (c' : cols),
     (repository.update_note now i ti co (Some t)).2 = Some t' ∧
     rows t' !! i = Some c' ∧ content c' ≠ None) ∧
  (∃ (t' : table) (c' : cols),
     (update_where_id (repository.update_fields now ti co) i (Some t)).2 = Some t' ∧
     rows t' !! i = Some c' ∧ content c' ≠ None).
Proof.
  intros Hi Hc. split.
  - exists t, c. by rewrite update_note_keeps_database.
  - unfold update_where_id. rewrite Hi, assign_all_update_fields. simpl.
    eexists _, _. split; [reflexivity|]. simpl. rewrite lookup_insert_eq.
    split; [reflexivity|]. simpl. by destruct co.
Qed.

Lemma update_note_never_nulls_content_witness :
  rows one_note !! 1 =
    Some (mk_cols "T" (Some "C") "2024-05-17T09:30:00+00:00" "2024-05-17T09:30:00+00:00") ∧
  Some "C" ≠ (None : option string) ∧
  (∃ (t' : table) (c' : cols),
     (repository.update_note (mk_datetime 2024 5 17 9 31 0 0) 1 (Some "T2") None
        (Some one_note)).2 = Some t' ∧
     rows t' !! 1 = Some c' ∧ content c' ≠ None) ∧
  (∃ (t' : table) (c' : cols),
     (update_where_id
        (repository.update_fields (mk_datetime 2024 5 17 9 31 0 0) (Some "T2") None) 1
        (Some one_note)).2 = Some t' ∧
     rows t' !! 1 = Some c' ∧ content c' ≠ None).
Proof.
  split; [reflexivity|]. split; [discriminate|].
  apply (update_note_never_nulls_content (mk_datetime 2024 5 17 9 31 0 0) one_note 1
           (mk_cols "T" (Some "C") "2024-05-17T09:30:00+00:00" "2024-05-17T09:30:00+00:00")
           (Some "T2") None); [reflexivity | discriminate].
Defined.

(** ** [get_note] after [create_note] *)

Lemma list_notes_run (t : table) (offset limit : Z) :
  repository.list_notes offset limit (Some t) =
  (result_mapM (λ r, d ← repository._row_to_note_dict r; models.model_validate d)
     ((λ p, row_of p.1 p.2) <$>
      sql_limit limit (sql_offset offset (order_by (map_to_list (rows t))))),
   Some t).
Proof. reflexivity. Qed.

Lemma get_note_keeps_database (db : database) (i : Z) :
  (repository.get_note i db).2 = db.
Proof. destruct db as [t|]; [by rewrite get_note_run | reflexivity]. Qed.

Lemma list_notes_keeps_database (db : database) (offset limit : Z) :
  (repository.list_notes offset limit db).2 = db.
Proof. destruct db as [t|]; reflexivity. Qed.

(** What [create_note] leaves of a row already there: the row itself, and a
    counter that has not gone down. *)
Lemma create_note_keeps_row
    (now : datetime) (t : table) (ti : string) (co : option string) (i : Z) (c : cols) :
  rows t !! i = Some c → i ≤ seq t →
  ∃ t', (repository.create_note now ti co (Some t)).2 = Some t' ∧
        rows t' !! i = Some c ∧ i ≤ seq t'.
Proof.
  intros Hi Hseq. destruct (new_rowid t) as [e|v] eqn:Hv.
  - rewrite (create_note_full now t ti co e Hv). by exists t.
  - rewrite (create_note_run now t ti co v Hv). simpl.
    destruct (new_rowid_fresh t v Hv) as (_ & Hs & _).
    eexists. split; [reflexivity|]. simpl.
    rewrite lookup_insert_ne by lia. split; [done | lia].
Qed.

Lemma after_keeps_row (t : table) (k : calls.call) (i : Z) (c : cols) :
  calls.touches i k = false →
  rows t !! i = Some c → i ≤ seq t →
  ∃ t', calls.after (Some t) k = Some t' ∧ rows t' !! i = Some c ∧ i ≤ seq t'.
Proof.
  intros Hk Hi Hseq.
  destruct k as [now ti co|j|o l|now j ti co|j]; cbn [calls.after calls.touches] in *.
  - by apply create_note_keeps_row.
  - exists t. by rewrite get_note_keeps_database.
  - exists t. by rewrite list_notes_keeps_database.
  - exists t. by rewrite update_note_keeps_database.
  - apply Z.eqb_neq in Hk. rewrite delete_note_run.
    destruct (rows t !! j); [|by exists t].
    eexists. split; [reflexivity|]. simpl. by rewrite lookup_delete_ne.
Qed.

Lemma foldl_after_keeps_row (ks : list calls.call) (t : table) (i : Z) (c : cols) :
  forallb (λ k, negb (calls.touches i k)) ks = true →
  rows t !! i = Some c → i ≤ seq t →
  ∃ t', foldl calls.after (Some t) ks = Some t' ∧ rows t' !! i = Some c.
Proof.
  revert t. induction ks as [|k ks IH]; intros t Hks Hi Hseq; simpl in *.
  - by exists t.
  - apply andb_true_iff in Hks as [Hk Hks]. apply negb_true_iff in Hk.
    destruct (after_keeps_row t k i c Hk Hi Hseq) as (t1 & -> & Hi1 & Hseq1).
    by apply IH.
Qed.

(** What a successful [create_note] says about the database it leaves. *)
Lemma create_note_inversion
    (now : datetime) (db db1 : database) (ti : string) (co : option string)
    (n : models.NoteOut) :
  repository.create_note now ti co db = (inr n, db1) →
  ∃ (t1 : table) (c : cols),
    db1 = Some t1 ∧ rows t1 !! models.id n = Some c ∧ models.id n ≤ seq t1 ∧
    models.model_validate (row_of (models.id n) c) = inr n.
Proof.
  intros Hcr. destruct db as [t|]; [|by rewrite create_note_no_table in Hcr].
  destruct (new_rowid t) as [e|v] eqn:Hv.
  - by rewrite (create_note_full now t ti co e Hv) in Hcr.
  - rewrite (create_note_run now t ti co v Hv) in Hcr.
    injection Hcr as Hval <-.
    assert (models.id n = v) as Hid.
    { rewrite model_validate_row_of in Hval. by repeat case_match; simplify_eq. }
    rewrite Hid. eexists _, _. split; [reflexivity|]. simpl.
    rewrite lookup_insert_eq. split; [reflexivity|]. split; [lia | done].
Qed.

(** C4. After [create_note] returned a note, and after any further calls of
    the repository among which there is no update and no delete of that
    note's id, [get_note] on the id returns the very value [create_note]
    returned. *)
Theorem get_note_returns_created
    (now : datetime) (db db1 : database) (ti : string) (co : option string)
    (n : models.NoteOut) (ks : list calls.call) :
  repository.create_note now ti co db = (inr n, db1) →
  forallb (λ k, negb (calls.touches (models.id n) k)) ks = true →
  (repository.get_note (models.id n) (foldl calls.after db1 ks)).1 = inr (Some n).
Proof.
  intros Hcr Hks.
  destruct (create_note_inversion _ _ _ _ _ _ Hcr) as (t1 & c & -> & Hi & Hseq & Hval).
  destruct (foldl_after_keeps_row ks t1 _ c Hks Hi Hseq) as (t2 & -> & Hi2).
  rewrite get_note_run, Hi2, Hval. reflexivity.
Qed.

Lemma get_note_returns_created_witness :
  repository.create_note clock_0930 "B" None (Some one_note) = (inr note_2, with_note_2) ∧
  forallb (λ k, negb (calls.touches (models.id note_2) k)) later_calls = true ∧
  (repository.get_note (models.id note_2) (foldl calls.after with_note_2 later_calls)).1 =
    inr (Some note_2).
Proof.
  assert (Hcr : repository.create_note clock_0930 "B" None (Some one_note) =
                (inr note_2, with_note_2)) by (vm_compute; reflexivity).
  assert (Hks : forallb (λ k, negb (calls.touches (models.id note_2) k)) later_calls = true)
    by reflexivity.
  split; [exact Hcr|]. split; [exact Hks|].
  exact (get_note_returns_created clock_0930 (Some one_note) with_note_2 "B" None
           note_2 later_calls Hcr Hks).
Defined.

(** ** The order of [list_notes] *)

Lemma ascii_compare_refl (c : ascii) : Ascii.compare c c = Eq.
Proof. apply N.compare_refl. Qed.

Lemma ascii_compare_lt_trans (a b c : ascii) :
  Ascii.compare a b = Lt → Ascii.compare b c = Lt → Ascii.compare a c = Lt.
Proof. unfold Ascii.compare. rewrite !N.compare_lt_iff. lia. Qed.

Lemma string_compare_refl (s : string) : String.compare s s = Eq.
Proof. induction s as [|c s IH]; simpl; [done|]. by rewrite ascii_compare_refl. Qed.

Lemma string_compare_lt_trans (a : string) : ∀ b c,
  String.compare a b = Lt → String.compare b c = Lt → String.compare a c = Lt.
Proof.
  induction a as [|x a IH]; intros [|y b] [|z c]; simpl; try done.
  destruct (Ascii.compare x y) eqn:Hxy; try done;
    destruct (Ascii.compare y z) eqn:Hyz; try done.
  - apply Ascii.compare_eq_iff in Hxy, Hyz. subst. rewrite ascii_compare_refl. apply IH.
  - apply Ascii.compare_eq_iff in Hxy. subst. by rewrite Hyz.
  - apply Ascii.compare_eq_iff in Hyz. subst. by rewrite Hxy.
  - by rewrite (ascii_compare_lt_trans x y z).
Qed.

Lemma key_cmp_antisym (a b : option string) : key_cmp a b = CompOpp (key_cmp b a).
Proof. destruct a, b; simpl; try done. apply String.compare_antisym. Qed.

Lemma key_cmp_eq (a b : option string) : key_cmp a b = Eq ↔ a = b.
Proof.
  destruct a as [x|], b as [y|]; simpl; split; try done.
  - by intros ->%String.compare_eq_iff.
  - intros [= ->]. apply string_compare_refl.
Qed.

Lemma key_cmp_lt_trans (a b c : option string) :
  key_cmp a b = Lt → key_cmp b c = Lt → key_cmp a c = Lt.
Proof. destruct a, b, c; simpl; try done. apply string_compare_lt_trans. Qed.

(** [a] is listed no later than [b] when its key is the larger one, or the
    keys are equal and its id is not the smaller one. *)
Lemma listed_before_spec (a b : Z * cols) :
  listed_before a b = true ↔
  key_cmp (order_key b) (order_key a) = Lt ∨ (order_key a = order_key b ∧ b.1 ≤ a.1).
Proof.
  unfold listed_before. rewrite (key_cmp_antisym (order_key b)).
  destruct (key_cmp (order_key a) (order_key b)) eqn:Hc; simpl.
  - apply key_cmp_eq in Hc. rewrite Z.leb_le.
    split; [by right | by intros [?|[_ ?]]].
  - split; [done|]. intros [?|[He _]]; [done|].
    apply key_cmp_eq in He. congruence.
  - split; [by left | done].
Qed.

#[local] Instance listed_before_total : Total (λ a b, Is_true (listed_before a b)).
Proof.
  intros a b. rewrite !Is_true_true, !listed_before_spec.
  rewrite (key_cmp_antisym (order_key a)).
  destruct (key_cmp (order_key b) (order_key a)) eqn:Hc; simpl; [|by left; left|by right; left].
  apply key_cmp_eq in Hc.
  destruct (Z.le_ge_cases a.1 b.1); [right | left]; by right.
Qed.

#[local] Instance listed_before_trans : Transitive (λ a b, Is_true (listed_before a b)).
Proof.
  intros a b c. rewrite !Is_true_true, !listed_before_spec.
  intros [H1|[H1 H1']] [H2|[H2 H2']].
  - left. by apply (key_cmp_lt_trans _ (order_key b)).
  - left. by rewrite <- H2.
  - left. by rewrite H1.
  - right. split; [congruence | lia].
Qed.

Lemma order_by_sorted (l : list (Z * cols)) :
  StronglySorted (λ a b, Is_true (listed_before a b)) (order_by l).
Proof. apply StronglySorted_merge_sort; apply _. Qed.

Lemma order_by_perm (l : list (Z * cols)) : order_by l ≡ₚ l.
Proof. apply merge_sort_Permutation. Qed.

(** Two rows of one table that each are listed no later than the other are
    the same row. *)
Lemma listed_before_antisym (m : gmap Z cols) (a b : Z * cols) :
  a ∈ map_to_list m → b ∈ map_to_list m →
  listed_before a b = true → listed_before b a = true → a = b.
Proof.
  destruct a as [i x], b as [j y]. rewrite !elem_of_map_to_list, !listed_before_spec.
  simpl. intros Hi Hj [H1|[H1 H1']] [H2|[H2 H2']].
  - pose proof (key_cmp_lt_trans _ _ _ H1 H2) as H.
    by rewrite (proj2 (key_cmp_eq _ _) eq_refl) in H.
  - rewrite H2 in H1. by rewrite (proj2 (key_cmp_eq _ _) eq_refl) in H1.
  - rewrite H1 in H2. by rewrite (proj2 (key_cmp_eq _ _) eq_refl) in H2.
  - assert (i = j) as -> by lia. congruence.
Qed.

(** The order of the listing does not depend on how the rows are sorted:
    every arrangement of the table's rows that respects the ORDER BY clause
    is the one [order_by] computes. *)
Lemma order_by_unique (m : gmap Z cols) (l : list (Z * cols)) :
  l ≡ₚ map_to_list m →
  StronglySorted (λ a b, Is_true (listed_before a b)) l →
  l = order_by (map_to_list m).
Proof.
  intros Hp Hs.
  apply (StronglySorted_unique_strong (λ a b, Is_true (listed_before a b)));
    [|done|apply order_by_sorted|by rewrite order_by_perm].
  intros a b Ha Hb Hab Hba. apply (listed_before_antisym m).
  - by rewrite <- Hp.
  - by rewrite <- (order_by_perm (map_to_list m)).
  - by apply Is_true_true.
  - by apply Is_true_true.
Qed.

Lemma sql_limit_length {A} (n : Z) (l : list A) :
  0 ≤ n → (length (sql_limit n l) ≤ Z.to_nat n)%nat.
Proof.
  intros Hn. unfold sql_limit. destruct (n <? 0) eqn:E; [apply Z.ltb_lt in E; lia|].
  rewrite length_take. lia.
Qed.

Lemma sql_offset_past_end {A} (n : Z) (l : list A) :
  Z.of_nat (length l) ≤ n → sql_offset n l = [].
Proof. intros Hn. unfold sql_offset. apply drop_ge. lia. Qed.

Lemma sql_page (limit offset : Z) {A} (l : list A) :
  0 ≤ offset → 0 ≤ limit →
  sql_limit limit (sql_offset offset l) = take (Z.to_nat limit) (drop (Z.to_nat offset) l).
Proof.
  intros Ho Hl. unfold sql_limit, sql_offset.
  destruct (limit <? 0) eqn:E; [apply Z.ltb_lt in E; lia | done].
Qed.

(** ** The key of the ORDER BY clause, read as a time *)

Lemma ascii_compare_digit (a b : N) :
  Ascii.compare (Text.digit a) (Text.digit b) = N.compare (a mod 10) (b mod 10).
Proof.
  unfold Ascii.compare. rewrite !N_of_digit.
  generalize (a mod 10)%N (b mod 10)%N. intros x y.
  destruct (N.compare_spec x y) as [->|H|H].
  - apply N.compare_refl.
  - apply N.compare_lt_iff. lia.
  - apply N.compare_gt_iff. lia.
Qed.

Lemma compare_high_low (p hn hm ln lm : N) :
  (ln < p)%N → (lm < p)%N →
  N.compare (ln + p * hn) (lm + p * hm) =
  match N.compare hn hm with Eq => N.compare ln lm | c => c end.
Proof.
  intros Hn Hm. destruct (N.compare_spec hn hm) as [->|H|H].
  - destruct (N.compare_spec ln lm) as [->|H'|H'].
    + apply N.compare_refl.
    + apply N.compare_lt_iff. lia.
    + apply N.compare_gt_iff. lia.
  - apply N.compare_lt_iff. nia.
  - apply N.compare_gt_iff. nia.
Qed.

(** Zero-padded numbers of one width compare as text the way they compare
    as numbers. *)
Lemma compare_pad (w : nat) : ∀ (n m : N) (r1 r2 : string),
  String.compare (Text.pad w n +:+ r1) (Text.pad w m +:+ r2) =
  match N.compare (n mod 10 ^ N.of_nat w) (m mod 10 ^ N.of_nat w) with
  | Eq => String.compare r1 r2
  | c => c
  end.
Proof.
  induction w as [|w IH]; intros n m r1 r2.
  - cbn [Text.pad]. rewrite !append_nil. by rewrite !N.mod_1_r.
  - cbn [Text.pad]. rewrite !append_cons. cbn [String.compare].
    rewrite ascii_compare_digit, IH.
    rewrite Nat2N.inj_succ, N.pow_succ_r'.
    rewrite (N.mul_comm 10 (10 ^ N.of_nat w)), !N.Div0.mod_mul_r.
    assert (Hpos : (0 < 10 ^ N.of_nat w)%N) by (apply N.neq_0_lt_0, N.pow_nonzero; lia).
    rewrite compare_high_low by (apply N.mod_upper_bound; lia).
    by destruct (N.compare _ _).
Qed.

Lemma compare_pad_small (w : nat) (n m : N) (r1 r2 : string) :
  (n < 10 ^ N.of_nat w)%N → (m < 10 ^ N.of_nat w)%N →
  String.compare (Text.pad w n +:+ r1) (Text.pad w m +:+ r2) =
  match N.compare n m with Eq => String.compare r1 r2 | c => c end.
Proof. intros Hn Hm. by rewrite compare_pad, !N.mod_small. Qed.

Lemma compare_sep (c : ascii) (r1 r2 : string) :
  String.compare (String c r1) (String c r2) = String.compare r1 r2.
Proof. simpl. by rewrite ascii_compare_refl. Qed.

Lemma append_nil_r (s : string) : s +:+ "" = s.
Proof. induction s as [|c s IH]; [done|]. by rewrite append_cons, IH. Qed.

Lemma sqlite_datetime_isoformat (d : datetime) :
  datetime_ok d = true →
  sqlite_datetime (isoformat d) =
  Some (Text.pad 4 (year d) +:+ "-" +:+ Text.pad 2 (month d) +:+ "-" +:+
        Text.pad 2 (day d) +:+ " " +:+
        Text.pad 2 (hour d) +:+ ":" +:+ Text.pad 2 (minute d) +:+ ":" +:+
        Text.pad 2 (second d)).
Proof. intros Hok. unfold sqlite_datetime. by rewrite parse_isoformat_isoformat. Qed.

(** On text that [_now_iso] wrote, comparing the [datetime()] keys is
    comparing the clock readings to the whole second. *)
Lemma key_cmp_whole_second (da db : datetime) :
  datetime_ok da = true → datetime_ok db = true →
  key_cmp (sqlite_datetime (isoformat da)) (sqlite_datetime (isoformat db)) =
  datetime_compare (whole_second da) (whole_second db).
Proof.
  intros Ha Hb. rewrite !sqlite_datetime_isoformat by done.
  destruct (datetime_ok_bounds da Ha) as (Ay & Amo & Ad & Ah & Ami & As & _).
  destruct (datetime_ok_bounds db Hb) as (By & Bmo & Bd & Bh & Bmi & Bs & _).
  cbn [key_cmp]. unfold datetime_compare, whole_second. cbn -[Text.pad].
  repeat (rewrite compare_pad_small by done; rewrite ?append_cons, ?append_nil, ?compare_sep).
  rewrite <- (append_nil_r (Text.pad 2 (second da))), <- (append_nil_r (Text.pad 2 (second db))).
  rewrite compare_pad_small by done.
  by repeat destruct (N.compare _ _).
Qed.

Lemma listed_before_whole_second (a b : Z * cols) (da db : datetime) :
  datetime_ok da = true → datetime_ok db = true →
  updated_at a.2 = isoformat da → updated_at b.2 = isoformat db →
  listed_before a b =
  match datetime_compare (whole_second da) (whole_second db) with
  | Gt => true
  | Lt => false
  | Eq => b.1 <=? a.1
  end.
Proof.
  intros Ha Hb Ea Eb. unfold listed_before, order_key.
  by rewrite Ea, Eb, key_cmp_whole_second.
Qed.



Lemma result_mapM_all {A B} (f : A → result B) (g : A → B) (l : list A) :
  Forall (λ x, f x = inr (g x)) l → result_mapM f l = inr (g <$> l).
Proof.
  induction 1 as [|x l Hx _ IH]; [done|].
  cbn [result_mapM]. rewrite Hx. cbn. rewrite IH. reflexivity.
Qed.

Lemma result_mapM_length {A B} (f : A → result B) (l : list A) (r : list B) :
  result_mapM f l = inr r → length r = length l.
Proof.
  revert r. induction l as [|x l IH]; intros r; cbn [result_mapM].
  - by intros [= <-].
  - destruct (f x) as [e|y]; [done|]. cbn.
    destruct (result_mapM f l) as [e|ys]; [done|]. cbn.
    intros [= <-]. cbn. by rewrite (IH ys).
Qed.

(** With a non-negative offset and limit, [list_notes] skips [offset] rows
    of the ordered table and returns at most [limit] of the rest. *)
Lemma list_notes_page (t : table) (offset limit : Z) (ns : list models.NoteOut) :
  0 ≤ offset → 0 ≤ limit →
  (repository.list_notes offset limit (Some t)).1 = inr ns →
  length ns = (Z.to_nat limit `min` (size (rows t) - Z.to_nat offset))%nat.
Proof.
  intros Ho Hl. rewrite list_notes_run. cbn [fst]. intros Hns.
  apply result_mapM_length in Hns. rewrite Hns, length_fmap, sql_page by done.
  rewrite length_take, length_drop.
  rewrite (Permutation_length (order_by_perm _)), length_map_to_list. done.
Qed.

(** ** Tables that the repository wrote *)







(** C1, at the table [two_notes]: both notes were last updated within the
    second 09:30:00, note 1 four tenths of a second after note 2.
    [datetime(updated_at)] is the same text for both, the tie goes to the
    larger id, and [list_notes] puts note 2 first although its [updated_at]
    is the earlier one. *)
Theorem list_notes_same_second_by_id :
  (repository.list_notes 0 100 (Some two_notes)).1 = inr [note_B; note_A] ∧
  datetime_compare (models.updated_at note_B) (models.updated_at note_A) = Lt ∧
  order_key (1, mk_cols "A" None "2024-05-17T09:30:00.100000+00:00"
                        "2024-05-17T09:30:00.900000+00:00") =
  order_key (2, mk_cols "B" None "2024-05-17T09:30:00.500000+00:00"
                        "2024-05-17T09:30:00.500000+00:00").
Proof. split; [|split]; vm_compute; reflexivity. Qed.

Example list_notes_after_clock_set_back :
  (repository.list_notes 0 100 (foldl calls.after (Some empty_table) set_back_calls)).1 =
  inr [models.mk_NoteOut 2 "B" None (mk_datetime 2024 5 17 9 30 0 500000)
                         (mk_datetime 2024 5 17 9 30 0 500000);
       models.mk_NoteOut 1 "A" None (mk_datetime 2024 5 17 9 30 0 900000)
                         (mk_datetime 2024 5 17 9 30 0 900000)].
Proof. vm_compute. reflexivity. Qed.

(** ** [init_db] *)

Lemma init_db_run (p : string) (fs : db.files) :
  db.init_db p fs =
  (inr (), if db.ephemeral p then fs
           else match fs !! p with
                | Some _ => fs
                | None => <[p := empty_table]> fs
                end).
Proof.
  unfold db.init_db, db.open_connection, db.close.
  destruct (db.ephemeral p); [reflexivity|].
  destruct (fs !! p) as [t|] eqn:Hp; cbn; [|reflexivity].
  f_equal. rewrite <- Hp. apply partial_alter_self.
Qed.

(** Where the table exists, with whatever rows, [init_db] changes nothing. *)
Lemma init_db_existing (p : string) (fs : db.files) (t : table) :
  fs !! p = Some t → db.init_db p fs = (inr (), fs).
Proof. intros Hp. rewrite init_db_run, Hp. by destruct (db.ephemeral p). Qed.

Lemma init_db_again (p : string) (fs : db.files) :
  db.init_db p (db.init_db p fs).2 = (inr (), (db.init_db p fs).2).
Proof.
  rewrite (init_db_run p fs). cbn [snd]. rewrite init_db_run.
  destruct (db.ephemeral p); [reflexivity|].
  destruct (fs !! p) as [t|] eqn:Hp; [by rewrite Hp|].
  by rewrite lookup_insert_eq.
Qed.

(** C7. [init_db] does not raise; what the files held before the call they
    hold after it, every table with the rows and the counter it had; and a
    second call, or any number of further calls, on the same path does not
    raise either and leaves the files exactly as the first call left them. *)
Theorem init_db_idempotent (p : string) (fs : db.files) :
  (db.init_db p fs).1 = inr () ∧
  fs ⊆ (db.init_db p fs).2 ∧
  db.init_db p (db.init_db p fs).2 = (inr (), (db.init_db p fs).2) ∧
  ∀ k : nat, Nat.iter k (λ f, (db.init_db p f).2) (db.init_db p fs).2 = (db.init_db p fs).2.
Proof.
  split; [by rewrite init_db_run|]. split; [|split].
  - rewrite init_db_run. cbn [snd]. destruct (db.ephemeral p); [done|].
    destruct (fs !! p) eqn:Hp; [done|]. by apply insert_subseteq.
  - apply init_db_again.
  - induction k as [|k IH]; [done|]. rewrite Nat.iter_succ, IH. by rewrite init_db_again.
Qed.


(** ** [Settings.cors_allow_origins] *)

Import config.

Lemma nonempty_spec (s : string) : nonempty s = true ↔ s ≠ "".
Proof.
  unfold nonempty. destruct (String.eqb_spec s ""); simpl; split; congruence.
Qed.

Lemma rstrip_cons (c : ascii) (s : string) :
  rstrip (String c s) =
  if String.eqb (rstrip s) "" && isspace c then "" else String c (rstrip s).
Proof. simpl. destruct (rstrip s); simpl; by destruct (isspace c). Qed.

(** Trimming on the left and on the right can be done in either order. *)
Lemma lstrip_rstrip (s : string) : lstrip (rstrip s) = rstrip (lstrip s).
Proof.
  induction s as [|c s IH]; [done|].
  rewrite rstrip_cons. cbn [lstrip].
  destruct (isspace c) eqn:Hc.
  - rewrite andb_true_r. rewrite <- IH.
    destruct (String.eqb_spec (rstrip s) "") as [->| _]; [done|].
    cbn [lstrip]. by rewrite Hc.
  - rewrite andb_false_r, rstrip_cons, Hc, andb_false_r. cbn [lstrip]. by rewrite Hc.
Qed.

Lemma strip_space_cons (c : ascii) (s : string) :
  isspace c = true → strip (String c s) = strip s.
Proof. intros Hc. unfold strip. cbn [lstrip]. by rewrite Hc. Qed.

Lemma split_comma_cons (s : string) : ∃ h t, split_comma s = h :: t.
Proof.
  destruct s as [|c s]; simpl; [by eauto|].
  destruct (Ascii.eqb c ","); [by eauto|].
  destruct (split_comma s); eauto.
Qed.

Lemma isspace_not_comma (c : ascii) : isspace c = true → Ascii.eqb c "," = false.
Proof.
  intros Hc. destruct (Ascii.eqb_spec c ","); [|done]. subst. discriminate Hc.
Qed.

Lemma split_comma_lstrip (s : string) :
  strip <$> split_comma (lstrip s) = strip <$> split_comma s.
Proof.
  induction s as [|c s IH]; [done|].
  cbn [lstrip]. destruct (isspace c) eqn:Hc; [|done].
  rewrite IH. cbn [split_comma]. rewrite (isspace_not_comma c Hc).
  destruct (split_comma_cons s) as (h & t & ->).
  cbn [fmap list_fmap]. by rewrite (strip_space_cons c h Hc).
Qed.

Lemma split_comma_rstrip (s : string) :
  rstrip <$> split_comma (rstrip s) = rstrip <$> split_comma s.
Proof.
  induction s as [|c s IH]; [done|].
  rewrite rstrip_cons.
  destruct (String.eqb_spec (rstrip s) "") as [He|He]; cbn [andb].
  - rewrite He in IH. cbn in IH.
    destruct (split_comma s) as [|h [|h' t]] eqn:Hs; try discriminate IH.
    injection IH as IH.
    destruct (isspace c) eqn:Hc.
    + cbn [split_comma]. rewrite (isspace_not_comma c Hc), Hs. cbn.
      by rewrite <- IH, Hc.
    + rewrite He. cbn [split_comma]. destruct (Ascii.eqb c ",").
      * rewrite Hs. cbn. by rewrite <- IH.
      * rewrite Hs. cbn. by rewrite <- IH, Hc.
  - cbn [split_comma]. destruct (Ascii.eqb c ","); [by rewrite fmap_cons, IH|].
    destruct (split_comma_cons (rstrip s)) as (h1 & t1 & H1).
    destruct (split_comma_cons s) as (h2 & t2 & H2).
    rewrite H1, H2 in IH |- *. cbn [fmap list_fmap] in IH |- *.
    injection IH as Hh Ht. rewrite !rstrip_cons, Hh. by f_equal.
Qed.

(** The components of the trimmed string, once trimmed themselves, are the
    trimmed components of the string as given. *)
Lemma split_comma_strip (s : string) :
  strip <$> split_comma (strip s) = strip <$> split_comma s.
Proof.
  rewrite <- (split_comma_lstrip s).
  assert (Hfun : ∀ l : list string, strip <$> l = lstrip <$> (rstrip <$> l)).
  { intros l. rewrite <- list_fmap_compose. apply list_fmap_ext.
    intros _ x _. simpl. unfold strip. by rewrite lstrip_rstrip. }
  rewrite !Hfun. unfold strip. by rewrite split_comma_rstrip.
Qed.

Lemma comprehension_filter_map (l : list string) :
  foldr (λ o acc, if nonempty (strip o) then strip o :: acc else acc) [] l =
  filter (λ o, o ≠ "") (strip <$> l).
Proof.
  induction l as [|o l IH]; [done|]. cbn [foldr fmap list_fmap].
  rewrite filter_cons, IH.
  destruct (nonempty (strip o)) eqn:Hn.
  - apply nonempty_spec in Hn. by rewrite decide_True.
  - rewrite decide_False; [done|]. intros Hne. apply nonempty_spec in Hne. congruence.
Qed.


(** * Further properties *)

(** ** What [list_notes] returns *)





Lemma result_mapM_Forall2 {A B} (f : A → result B) (l : list A) (r : list B) :
  result_mapM f l = inr r → Forall2 (λ x y, f x = inr y) l r.
Proof.
  revert r. induction l as [|x l IH]; intros r; cbn [result_mapM].
  - intros [= <-]. constructor.
  - destruct (f x) as [e|y] eqn:Hx; [done|]. cbn.
    destruct (result_mapM f l) as [e|ys]; [done|]. cbn.
    intros [= <-]. constructor; [done | by apply IH].
Qed.

(** The rows behind the notes that [list_notes] returned. *)
Lemma list_notes_rows (t : table) (offset limit : Z) (ns : list models.NoteOut) :
  (repository.list_notes offset limit (Some t)).1 = inr ns →
  Forall2 (λ p n, models.model_validate (row_of p.1 p.2) = inr n)
    (sql_limit limit (sql_offset offset (order_by (map_to_list (rows t))))) ns.
Proof.
  rewrite list_notes_run. cbn [fst]. intros H.
  apply result_mapM_Forall2, Forall2_fmap_l in H.
  eapply Forall2_impl; [exact H|]. intros [i c] n. cbn.
  by rewrite row_to_note_dict_row_of.
Qed.

Lemma model_validate_row_of_inv (i : Z) (c : cols) (n : models.NoteOut) :
  models.model_validate (row_of i c) = inr n →
  models.id n = i ∧ models.title n = title c ∧ models.content n = content c ∧
  parse_isoformat (created_at c) = Some (models.created_at n) ∧
  parse_isoformat (updated_at c) = Some (models.updated_at n).
Proof.
  rewrite model_validate_row_of.
  destruct (parse_isoformat (created_at c)), (parse_isoformat (updated_at c)); try done.
  by intros [= <-].
Qed.

(** Positions in a page are positions in the ordered table, in the same
    order. *)
Lemma page_lookup {A} (limit offset : Z) (l : list A) (i : nat) (x : A) :
  sql_limit limit (sql_offset offset l) !! i = Some x →
  l !! (Z.to_nat offset + i)%nat = Some x.
Proof.
  unfold sql_limit, sql_offset. destruct (limit <? 0).
  - by rewrite lookup_drop.
  - intros [H _]%lookup_take_Some. by rewrite lookup_drop in H.
Qed.

Lemma order_by_NoDup_ids (m : gmap Z cols) : NoDup (order_by (map_to_list m)).*1.
Proof.
  rewrite (order_by_perm (map_to_list m)). apply NoDup_fst_map_to_list.
Qed.



Lemma page_elem_of {A} (limit offset : Z) (l : list A) (x : A) :
  x ∈ sql_limit limit (sql_offset offset l) → x ∈ l.
Proof.
  intros [i Hi]%list_elem_of_lookup. apply page_lookup in Hi.
  by eapply list_elem_of_lookup_2.
Qed.

(** X2. Every note that [list_notes] returns is a note of the table, the
    value [get_note] returns for its id, and no id comes twice. *)
Theorem list_notes_sound
    (t : table) (offset limit : Z) (ns : list models.NoteOut) :
  (repository.list_notes offset limit (Some t)).1 = inr ns →
  Forall (λ n, repository.get_note (models.id n) (Some t) = (inr (Some n), Some t)) ns ∧
  NoDup (models.id <$> ns).
Proof.
  intros Hns. apply list_notes_rows in Hns. split.
  - apply Forall_forall. intros n Hn.
    apply list_elem_of_lookup in Hn as [k Hk].
    destruct (Forall2_lookup_r _ _ _ _ _ Hns Hk) as ([i c] & Hp & Hv). cbn [fst snd] in Hv.
    pose proof (model_validate_row_of_inv _ _ _ Hv) as (Hid & _).
    apply list_elem_of_lookup_2, page_elem_of in Hp.
    rewrite (order_by_perm (map_to_list (rows t))) in Hp.
    apply elem_of_map_to_list in Hp.
    rewrite get_note_run, Hid, Hp, Hv. reflexivity.
  - assert (Hids : models.id <$> ns =
                   (sql_limit limit (sql_offset offset (order_by (map_to_list (rows t))))).*1).
    { clear -Hns. induction Hns as [|[i c] n l r Hv _ IH]; [done|].
      cbn [fmap list_fmap fst] in *.
      apply model_validate_row_of_inv in Hv as (-> & _). by rewrite IH. }
    rewrite Hids. pose proof (order_by_NoDup_ids (rows t)) as Hnd.
    unfold sql_limit, sql_offset.
    destruct (limit <? 0); rewrite ?fmap_take, fmap_drop.
    + eapply sublist_NoDup; [exact Hnd | apply sublist_drop].
    + eapply sublist_NoDup; [exact Hnd|].
      etrans; [apply sublist_take | apply sublist_drop].
Qed.

Lemma list_notes_sound_witness :
  (repository.list_notes 0 100 (Some two_notes)).1 = inr [note_B; note_A] ∧
  Forall (λ n, repository.get_note (models.id n) (Some two_notes) =
               (inr (Some n), Some two_notes)) [note_B; note_A] ∧
  NoDup (models.id <$> [note_B; note_A]).
Proof.
  split; [vm_compute; reflexivity|].
  apply (list_notes_sound two_notes 0 100 [note_B; note_A]).
  vm_compute; reflexivity.
Defined.







(** ** Ids and rows across calls *)

(** What a [create_note] that returned did to the database. *)
Lemma create_note_returned
    (now : datetime) (db db1 : database) (ti : string) (co : option string)
    (n : models.NoteOut) :
  repository.create_note now ti co db = (inr n, db1) →
  ∃ t : table,
    db = Some t ∧ new_rowid t = inr (models.id n) ∧
    db1 = Some (mk_table (<[models.id n := mk_cols ti co (isoformat now) (isoformat now)]>
                            (rows t)) (models.id n)) ∧
    models.model_validate
      (row_of (models.id n) (mk_cols ti co (isoformat now) (isoformat now))) = inr n.
Proof.
  intros Hcr. destruct db as [t|]; [|by rewrite create_note_no_table in Hcr].
  destruct (new_rowid t) as [e|v] eqn:Hv.
  - by rewrite (create_note_full now t ti co e Hv) in Hcr.
  - rewrite (create_note_run now t ti co v Hv) in Hcr.
    injection Hcr as Hval <-.
    pose proof (model_validate_row_of_inv _ _ _ Hval) as (-> & _).
    by exists t.
Qed.

(** No call lowers the AUTOINCREMENT counter. *)
Lemma after_seq_mono (t : table) (k : calls.call) :
  ∃ t', calls.after (Some t) k = Some t' ∧ seq t ≤ seq t'.
Proof.
  destruct k as [now ti co|j|o l|now j ti co|j]; cbn [calls.after].
  - destruct (new_rowid t) as [e|v] eqn:Hv.
    + rewrite (create_note_full now t ti co e Hv). by exists t.
    + rewrite (create_note_run now t ti co v Hv). cbn [snd].
      destruct (new_rowid_fresh t v Hv) as (_ & Hs & _).
      eexists. split; [reflexivity|]. cbn [seq]. lia.
  - exists t. by rewrite get_note_keeps_database.
  - exists t. by rewrite list_notes_keeps_database.
  - exists t. by rewrite update_note_keeps_database.
  - rewrite delete_note_run. destruct (rows t !! j); [|by exists t].
    eexists. split; [reflexivity|]. done.
Qed.

Lemma foldl_after_seq_mono (ks : list calls.call) (t : table) :
  ∃ t', foldl calls.after (Some t) ks = Some t' ∧ seq t ≤ seq t'.
Proof.
  revert t. induction ks as [|k ks IH]; intros t; [by exists t|].
  destruct (after_seq_mono t k) as (t1 & Ht1 & Hs1).
  destruct (IH t1) as (t2 & Ht2 & Hs2).
  exists t2. cbn [foldl]. rewrite Ht1. split; [done | lia].
Qed.

(** X5. Ids are never handed out twice: a note created after another one
    has the larger id, whatever calls were made in between, deletes of the
    first note included. *)
Theorem create_note_ids_increase
    (now now' : datetime) (db db1 db2 : database) (ti ti' : string)
    (co co' : option string) (n n' : models.NoteOut) (ks : list calls.call) :
  repository.create_note now ti co db = (inr n, db1) →
  repository.create_note now' ti' co' (foldl calls.after db1 ks) = (inr n', db2) →
  models.id n < models.id n'.
Proof.
  intros H1 H2.
  destruct (create_note_returned _ _ _ _ _ _ H1) as (t & -> & _ & -> & _).
  destruct (foldl_after_seq_mono ks
              (mk_table (<[models.id n := mk_cols ti co (isoformat now) (isoformat now)]>
                           (rows t)) (models.id n))) as (t2 & Ht2 & Hs).
  rewrite Ht2 in H2.
  destruct (create_note_returned _ _ _ _ _ _ H2) as (t2' & [= <-] & Hv & _).
  destruct (new_rowid_fresh _ _ Hv) as (_ & Hlt & _).
  cbn [seq] in Hs. lia.
Qed.

(** X6. [create_note] adds its row and touches no other: every row of the
    table is still there, unchanged, the table has one row more, and
    [get_note] on any other id answers as before. *)
Theorem create_note_frame
    (now : datetime) (t : table) (db1 : database) (ti : string) (co : option string)
    (n : models.NoteOut) :
  repository.create_note now ti co (Some t) = (inr n, db1) →
  ∃ t1 : table,
    db1 = Some t1 ∧ rows t ⊆ rows t1 ∧ size (rows t1) = S (size (rows t)) ∧
    ∀ j, j ≠ models.id n →
      (repository.get_note j (Some t1)).1 = (repository.get_note j (Some t)).1.
Proof.
  intros Hcr.
  destruct (create_note_returned _ _ _ _ _ _ Hcr) as (t0 & [= <-] & Hv & -> & _).
  destruct (new_rowid_fresh _ _ Hv) as (Hfresh & _ & _).
  eexists. split; [reflexivity|]. cbn [rows].
  split; [by apply insert_subseteq|].
  split; [by apply map_size_insert_None|].
  intros j Hj. rewrite !get_note_run. cbn [fst rows].
  by rewrite lookup_insert_ne.
Qed.



Lemma create_note_ids_increase_witness :
  repository.create_note clock_0930 "B" None (Some one_note) = (inr note_2, with_note_2) ∧
  repository.create_note clock_0930 "F" None (foldl calls.after with_note_2 later_calls) =
    (inr (models.mk_NoteOut 4 "F" None clock_0930 clock_0930),
     (repository.create_note clock_0930 "F" None
        (foldl calls.after with_note_2 later_calls)).2) ∧
  models.id note_2 < models.id (models.mk_NoteOut 4 "F" None clock_0930 clock_0930).
Proof.
  assert (H1 : repository.create_note clock_0930 "B" None (Some one_note) =
               (inr note_2, with_note_2)) by (vm_compute; reflexivity).
  assert (H2 : repository.create_note clock_0930 "F" None
                 (foldl calls.after with_note_2 later_calls) =
               (inr (models.mk_NoteOut 4 "F" None clock_0930 clock_0930),
                (repository.create_note clock_0930 "F" None
                   (foldl calls.after with_note_2 later_calls)).2))
    by (vm_compute; reflexivity).
  split; [exact H1|]. split; [exact H2|].
  exact (create_note_ids_increase _ _ _ _ _ _ _ _ _ _ _ later_calls H1 H2).
Defined.

Lemma create_note_frame_witness :
  repository.create_note clock_0930 "B" None (Some one_note) = (inr note_2, with_note_2) ∧
  ∃ t1 : table,
    with_note_2 = Some t1 ∧ rows one_note ⊆ rows t1 ∧
    size (rows t1) = S (size (rows one_note)) ∧
    ∀ j, j ≠ models.id note_2 →
      (repository.get_note j (Some t1)).1 = (repository.get_note j (Some one_note)).1.
Proof.
  assert (H1 : repository.create_note clock_0930 "B" None (Some one_note) =
               (inr note_2, with_note_2)) by (vm_compute; reflexivity).
  split; [exact H1|].
  exact (create_note_frame clock_0930 one_note with_note_2 "B" None note_2 H1).
Defined.

(** ** Tables that grew from the empty one *)

Import invariants.

Lemma after_ids_bounded (t : table) (k : calls.call) :
  ids_bounded t → ∃ t', calls.after (Some t) k = Some t' ∧ ids_bounded t'.
Proof.
  intros [Hs Hb].
  destruct k as [now ti co|j|o l|now j ti co|j]; cbn [calls.after].
  - destruct (new_rowid t) as [e|v] eqn:Hv.
    + rewrite (create_note_full now t ti co e Hv). by exists t.
    + rewrite (create_note_run now t ti co v Hv). cbn [snd].
      destruct (new_rowid_fresh t v Hv) as (_ & Hlt & _).
      eexists. split; [reflexivity|]. split; cbn [seq rows]; [lia|].
      intros i Hi. destruct (decide (i = v)) as [->|Hne]; [lia|].
      rewrite lookup_insert_ne in Hi by done. specialize (Hb i Hi). lia.
  - exists t. by rewrite get_note_keeps_database.
  - exists t. by rewrite list_notes_keeps_database.
  - exists t. by rewrite update_note_keeps_database.
  - rewrite delete_note_run. destruct (rows t !! j) eqn:Hj; [|by exists t].
    eexists. split; [reflexivity|]. split; [done|]. cbn [rows seq].
    intros i Hi. apply Hb. destruct (decide (i = j)) as [->|Hne].
    + by rewrite lookup_delete_eq in Hi; destruct Hi.
    + by rewrite lookup_delete_ne in Hi.
Qed.

(** X8. In every table that grew from the empty one by calls of the
    repository, each note has an id of at least 1 and at most the
    AUTOINCREMENT counter. *)
Theorem ids_stay_bounded (ks : list calls.call) :
  ∃ t, foldl calls.after (Some empty_table) ks = Some t ∧ ids_bounded t.
Proof.
  assert (Hgen : ∀ t, ids_bounded t →
            ∃ t', foldl calls.after (Some t) ks = Some t' ∧ ids_bounded t').
  { induction ks as [|k ks IH]; intros t Ht; [by exists t|].
    destruct (after_ids_bounded t k Ht) as (t1 & Ht1 & Hb1).
    cbn [foldl]. rewrite Ht1. by apply IH. }
  apply Hgen. split; [done|].
  intros i [c Hc]. cbn [rows empty_table] in Hc. by rewrite lookup_empty in Hc.
Qed.




(** ** The origins [cors_allow_origins] returns *)

Lemma lstrip_idemp (s : string) : lstrip (lstrip s) = lstrip s.
Proof.
  induction s as [|c s IH]; [done|]. cbn [lstrip].
  destruct (isspace c) eqn:Hc; [done|]. cbn [lstrip]. by rewrite Hc.
Qed.

Lemma rstrip_idemp (s : string) : rstrip (rstrip s) = rstrip s.
Proof.
  induction s as [|c s IH]; [done|]. rewrite rstrip_cons.
  destruct (String.eqb_spec (rstrip s) "") as [He|He]; cbn [andb].
  - destruct (isspace c) eqn:Hc; [done|].
    by rewrite He, rstrip_cons, Hc, andb_false_r.
  - rewrite rstrip_cons, IH.
    by destruct (String.eqb_spec (rstrip s) "").
Qed.

Lemma strip_idemp (s : string) : strip (strip s) = strip s.
Proof.
  unfold strip. by rewrite <- lstrip_rstrip, rstrip_idemp, lstrip_rstrip, lstrip_idemp.
Qed.

Lemma elem_of_lstrip (c : ascii) (s : string) :
  c ∈ list_ascii_of_string (lstrip s) → c ∈ list_ascii_of_string s.
Proof.
  induction s as [|x s IH]; [done|]. cbn [lstrip].
  destruct (isspace x); [|done]. cbn [list_ascii_of_string].
  intros H. apply elem_of_cons. right. by apply IH.
Qed.

Lemma elem_of_rstrip (c : ascii) (s : string) :
  c ∈ list_ascii_of_string (rstrip s) → c ∈ list_ascii_of_string s.
Proof.
  induction s as [|x s IH]; [done|]. rewrite rstrip_cons.
  destruct (String.eqb (rstrip s) "" && isspace x); cbn [list_ascii_of_string].
  - by intros ?%elem_of_nil.
  - rewrite !elem_of_cons. intros [->|H]; [by left|]. right. by apply IH.
Qed.

Lemma elem_of_strip (c : ascii) (s : string) :
  c ∈ list_ascii_of_string (strip s) → c ∈ list_ascii_of_string s.
Proof. intros H. by apply elem_of_lstrip, elem_of_rstrip. Qed.

Lemma split_comma_no_comma (s : string) :
  Forall (λ o, ","%char ∉ list_ascii_of_string o) (split_comma s).
Proof.
  induction s as [|c s IH]; cbn [split_comma].
  - constructor; [|constructor]. by intros ?%elem_of_nil.
  - destruct (Ascii.eqb_spec c ",") as [->|Hc].
    + constructor; [|done]. by intros ?%elem_of_nil.
    + destruct (split_comma_cons s) as (h & t & Hs). rewrite Hs in IH |- *.
      apply Forall_cons in IH as [Hh Ht]. constructor; [|done].
      cbn [list_ascii_of_string]. rewrite elem_of_cons. by intros [?|?].
Qed.

(** The accessor, with the trimmed components of the raw string written out. *)
Lemma cors_allow_origins_components (self : Settings) :
  cors_allow_origins self =
  if decide (strip (cors_allow_origins_raw self) = "" ∨
             strip (cors_allow_origins_raw self) = "*")
  then ["*"]
  else filter (λ o, o ≠ "") (strip <$> split_comma (cors_allow_origins_raw self)).
Proof.
  unfold cors_allow_origins.
  set (raw := cors_allow_origins_raw self).
  assert ((if nonempty raw then raw else "") = raw) as ->.
  { destruct (nonempty raw) eqn:Hn; [done|].
    destruct (String.eqb_spec raw ""); [done|].
    apply nonempty_spec in n. congruence. }
  destruct (String.eqb_spec (strip raw) "") as [He|He]; cbn [orb].
  { rewrite decide_True; [done | by left]. }
  destruct (String.eqb_spec (strip raw) "*") as [Hs|Hs].
  { rewrite decide_True; [done | by right]. }
  rewrite decide_False by (intros [?|?]; done).
  rewrite comprehension_filter_map. by rewrite split_comma_strip.
Qed.

(** X10. Every origin that [cors_allow_origins] returns is non-empty, has
    no whitespace at either end and contains no comma, whatever the raw
    string. *)
Theorem cors_origins_clean (self : Settings) :
  Forall (λ o, o ≠ "" ∧ strip o = o ∧ ","%char ∉ list_ascii_of_string o)
         (cors_allow_origins self).
Proof.
  rewrite cors_allow_origins_components.
  case_decide as Hw.
  - constructor; [|constructor]. split; [done|]. split; [done|].
    cbn. rewrite list_elem_of_singleton. discriminate.
  - apply Forall_forall. intros o [Hne Ho]%list_elem_of_filter.
    apply list_elem_of_fmap in Ho as (x & -> & Hx).
    split; [done|]. split; [apply strip_idemp|].
    intros Hc%elem_of_strip.
    pose proof (split_comma_no_comma (cors_allow_origins_raw self)) as Hall.
    rewrite Forall_forall in Hall. by apply (Hall x).
Qed.

Lemma rstrip_empty_iff (s : string) :
  rstrip s = "" ↔ Forall (λ c, isspace c = true) (list_ascii_of_string s).
Proof.
  induction s as [|c s IH]; cbn [list_ascii_of_string]; [by split; [constructor|]|].
  rewrite rstrip_cons, Forall_cons, <- IH.
  destruct (String.eqb_spec (rstrip s) "") as [He|He]; cbn [andb];
    destruct (isspace c); split; try done; by intros [??].
Qed.

Lemma lstrip_all_space (s : string) :
  Forall (λ c, isspace c = true) (list_ascii_of_string (lstrip s)) ↔
  Forall (λ c, isspace c = true) (list_ascii_of_string s).
Proof.
  induction s as [|c s IH]; [done|]. cbn [lstrip list_ascii_of_string].
  destruct (isspace c) eqn:Hc; [|done].
  rewrite Forall_cons, IH. split; [by split | by intros [_ ?]].
Qed.

Lemma strip_empty_iff (s : string) :
  strip s = "" ↔ Forall (λ c, isspace c = true) (list_ascii_of_string s).
Proof. unfold strip. by rewrite rstrip_empty_iff, lstrip_all_space. Qed.

Lemma split_comma_all_space (s : string) :
  Forall (λ o, strip o = "") (split_comma s) ↔
  Forall (λ c, c = ","%char ∨ isspace c = true) (list_ascii_of_string s).
Proof.
  induction s as [|c s IH]; cbn [split_comma list_ascii_of_string].
  - split; [constructor|]. intros _. by repeat constructor.
  - rewrite Forall_cons, <- IH.
    destruct (Ascii.eqb_spec c ",") as [->|Hc].
    + rewrite Forall_cons. split; [intros [_ ?]; split; [by left | done]|].
      by intros [_ ?].
    + destruct (split_comma_cons s) as (h & t & Hs). rewrite Hs, !Forall_cons.
      rewrite !strip_empty_iff. cbn [list_ascii_of_string]. rewrite Forall_cons.
      split.
      * intros [[Hsp Hh] Ht]. split; [by right | done].
      * intros [[?|Hsp] [Hh Ht]]; done.
Qed.

(** X11. [cors_allow_origins] returns the empty list, which allows no
    origin at all, exactly for a raw string that is made of commas and
    whitespace only and has at least one comma. *)
Theorem cors_origins_empty_iff (self : Settings) :
  cors_allow_origins self = [] ↔
  strip (cors_allow_origins_raw self) ≠ "" ∧
  Forall (λ c, c = ","%char ∨ isspace c = true)
         (list_ascii_of_string (cors_allow_origins_raw self)).
Proof.
  rewrite cors_allow_origins_components, <- split_comma_all_space.
  set (raw := cors_allow_origins_raw self).
  assert (Hfilter : filter (λ o, o ≠ "") (strip <$> split_comma raw) = [] ↔
                    Forall (λ o, strip o = "") (split_comma raw)).
  { induction (split_comma raw) as [|o l IH]; [by split; [constructor|]|].
    cbn [fmap list_fmap]. rewrite filter_cons, Forall_cons, <- IH.
    destruct (decide (strip o ≠ "")) as [Hne|He]; [by split; [|intros [??]]|].
    apply dec_stable in He. by split; [|intros [_ ?]]. }
  case_decide as Hw.
  - split; [done|]. intros [Hne Hall]. destruct Hw as [Hw|Hw]; [done|].
    exfalso. apply split_comma_all_space in Hall.
    assert (Hstar : "*"%char ∈ list_ascii_of_string raw).
    { apply elem_of_strip. rewrite Hw. cbn. by apply list_elem_of_singleton. }
    rewrite Forall_forall in Hall. by destruct (Hall _ Hstar).
  - rewrite Hfilter. split; [|by intros [_ ?]].
    intros Hall. split; [|done]. intros He. apply Hw. by left.
Qed.

(** ** Requests *)

Import routes.

Lemma get_db_conn_ephemeral {A} (settings : config.Settings) (h : io A) (fs : db.files) :
  db.ephemeral (config.notes_db_path settings) = true →
  _get_db_conn settings h fs = ((h None).1, fs).
Proof.
  intros He. unfold _get_db_conn, db.open_connection, db.close. rewrite He.
  by destruct (h None).
Qed.

Lemma get_db_conn_file {A} (settings : config.Settings) (h : io A) (fs : db.files) :
  db.ephemeral (config.notes_db_path settings) = false →
  _get_db_conn settings h fs =
  ((h (fs !! config.notes_db_path settings)).1,
   partial_alter (λ _, (h (fs !! config.notes_db_path settings)).2)
                 (config.notes_db_path settings) fs).
Proof.
  intros He. unfold _get_db_conn, db.open_connection, db.close. rewrite He.
  by destruct (h (fs !! config.notes_db_path settings)).
Qed.

(** A handler that leaves the database as it found it leaves the files as
    they were. *)
Lemma get_db_conn_read {A} (settings : config.Settings) (h : io A) (fs : db.files) :
  (∀ db, (h db).2 = db) →
  _get_db_conn settings h fs =
  ((h (db.open_connection fs (config.notes_db_path settings))).1, fs).
Proof.
  intros Hread. unfold db.open_connection.
  destruct (db.ephemeral (config.notes_db_path settings)) eqn:He.
  - by rewrite get_db_conn_ephemeral.
  - rewrite get_db_conn_file, Hread by done. f_equal. apply partial_alter_self.
Qed.

Lemma delete_note_no_table (i : Z) :
  repository.delete_note i None = (inl NoSuchTable, None).
Proof. reflexivity. Qed.

(** On a path that SQLite opens as a private database, [on_startup]
    creates its table in a database that is gone afterwards, and every
    request finds a database without the table. *)
Lemma ephemeral_serves_nothing (settings : config.Settings) (req : request) (fs : db.files) :
  db.ephemeral (config.notes_db_path settings) = true →
  on_startup settings fs = (inr (), fs) ∧
  (handle settings req fs).2 = fs ∧
  ((handle settings req fs).1 = RequestValidationError ∨
   (handle settings req fs).1 = Raised NoSuchTable ∨
   req = GET_root).
Proof.
  intros He. split; [by unfold on_startup; rewrite init_db_run, He|].
  destruct req as [now ti co|o l|i|now i ti co|i|]; cbn [handle].
  - unfold create_note_endpoint.
    destruct (payloads.NoteCreate_validate ti co); [|by split; [|left]].
    rewrite get_db_conn_ephemeral by done. by split; [|right; left].
  - unfold list_notes_endpoint. case_match; [|by split; [|left]].
    rewrite get_db_conn_ephemeral by done. by split; [|right; left].
  - unfold get_note_endpoint. case_match; [|by split; [|left]].
    rewrite get_db_conn_ephemeral by done. by split; [|right; left].
  - unfold update_note_endpoint.
    destruct (payloads.NoteUpdate_validate ti co); [|by split; [|left]].
    case_match; [|by split; [|left]].
    rewrite get_db_conn_ephemeral by done. by split; [|right; left].
  - unfold delete_note_endpoint. case_match; [|by split; [|left]].
    rewrite get_db_conn_ephemeral by done. by split; [|right; left].
  - by split; [|right; right].
Qed.

(** X12. With the settings read from an environment that sets
    [NOTES_DB_PATH] to [:memory:] or to the empty string, [on_startup] leaves
    no table behind, and every request other than the health check is
    rejected by validation or ends in the error of a missing table; no file
    is changed. *)
Theorem memory_path_serves_nothing
    (env : environment.environ) (req : request) (fs : db.files) :
  env !! "NOTES_DB_PATH" = Some ":memory:" ∨ env !! "NOTES_DB_PATH" = Some "" →
  on_startup (environment.get_settings None env).1 fs = (inr (), fs) ∧
  (handle (environment.get_settings None env).1 req fs).2 = fs ∧
  ((handle (environment.get_settings None env).1 req fs).1 = RequestValidationError ∨
   (handle (environment.get_settings None env).1 req fs).1 = Raised NoSuchTable ∨
   req = GET_root).
Proof.
  intros Henv. apply ephemeral_serves_nothing.
  cbn. unfold environment.getenv. by destruct Henv as [-> | ->].
Qed.

Lemma memory_path_serves_nothing_witness :
  (({[ "NOTES_DB_PATH" := ":memory:" ]} : environment.environ) !! "NOTES_DB_PATH" =
     Some ":memory:" ∨
   ({[ "NOTES_DB_PATH" := ":memory:" ]} : environment.environ) !! "NOTES_DB_PATH" =
     Some "") ∧
  on_startup (environment.get_settings None {[ "NOTES_DB_PATH" := ":memory:" ]}).1 ∅ =
    (inr (), ∅) ∧
  (handle (environment.get_settings None {[ "NOTES_DB_PATH" := ":memory:" ]}).1
          (GET_notes None None) ∅).2 = ∅ ∧
  ((handle (environment.get_settings None {[ "NOTES_DB_PATH" := ":memory:" ]}).1
           (GET_notes None None) ∅).1 = RequestValidationError ∨
   (handle (environment.get_settings None {[ "NOTES_DB_PATH" := ":memory:" ]}).1
           (GET_notes None None) ∅).1 = Raised NoSuchTable ∨
   GET_notes None None = GET_root).
Proof.
  split; [left; reflexivity|].
  apply (memory_path_serves_nothing {[ "NOTES_DB_PATH" := ":memory:" ]}
           (GET_notes None None) ∅).
  left; reflexivity.
Defined.

Lemma update_note_endpoint_outcome
    (settings : config.Settings) (now : datetime) (i : Z) (ti co : option string)
    (fs : db.files) :
  update_note_endpoint settings now i ti co fs =
  (match payloads.NoteUpdate_validate ti co with
   | None => RequestValidationError
   | Some _ =>
       if 1 <=? i then
         match db.open_connection fs (config.notes_db_path settings) with
         | None => Raised NoSuchTable
         | Some t =>
             match rows t !! i with
             | Some _ => Raised IndexError
             | None => HTTPException HTTP_404_NOT_FOUND "Note not found"
             end
         end
       else RequestValidationError
   end, fs).
Proof.
  unfold update_note_endpoint.
  destruct (payloads.NoteUpdate_validate ti co) as [p|] eqn:Hp; [|done].
  case_match; [|done].
  rewrite get_db_conn_read by (intros; apply update_note_keeps_database).
  cbn [fst snd]. f_equal.
  destruct (db.open_connection fs (config.notes_db_path settings)) as [t|]; [|done].
  rewrite update_note_run. cbn [fst]. by destruct (rows t !! i).
Qed.


Lemma list_notes_endpoint_keeps_files
    (settings : config.Settings) (o l : option Z) (fs : db.files) :
  (list_notes_endpoint settings o l fs).2 = fs.
Proof.
  unfold list_notes_endpoint. case_match; [|done].
  by rewrite get_db_conn_read by (intros; apply list_notes_keeps_database).
Qed.

Lemma get_note_endpoint_keeps_files (settings : config.Settings) (i : Z) (fs : db.files) :
  (get_note_endpoint settings i fs).2 = fs.
Proof.
  unfold get_note_endpoint. case_match; [|done].
  by rewrite get_db_conn_read by (intros; apply get_note_keeps_database).
Qed.


Lemma create_note_endpoint_created
    (settings : config.Settings) (now : datetime) (ti co : option string)
    (fs fs1 : db.files) (n : models.NoteOut) :
  db.ephemeral (config.notes_db_path settings) = false →
  create_note_endpoint settings now ti co fs = (Response HTTP_201_CREATED (Note n), fs1) →
  ∃ (title : string) (db1 : database),
    ti = Some title ∧ title ≠ "" ∧
    repository.create_note now title co (fs !! config.notes_db_path settings) =
      (inr n, db1) ∧
    fs1 = partial_alter (λ _, db1) (config.notes_db_path settings) fs.
Proof.
  intros He. unfold create_note_endpoint, payloads.NoteCreate_validate.
  destruct ti as [title|]; [|done].
  destruct (1 <=? String.length title)%nat eqn:Hlen; [|done].
  cbn [payloads.title payloads.content].
  rewrite get_db_conn_file by done.
  destruct (repository.create_note now title co (fs !! config.notes_db_path settings))
    as [[e|n'] db1] eqn:Hcr; cbn [fst snd]; [done|].
  intros [= <- <-]. exists title, db1. split; [done|]. split; [|done].
  intros ->. discriminate Hlen.
Qed.

(** X15. A note that a POST created is served by later requests, each on a
    connection of its own: when the POST answered 201 with a note whose id is
    at least 1, the GET on that id answers 200 with the same note. *)
Theorem created_note_is_served
    (settings : config.Settings) (now : datetime) (ti co : option string)
    (fs fs1 : db.files) (n : models.NoteOut) :
  db.ephemeral (config.notes_db_path settings) = false →
  create_note_endpoint settings now ti co fs = (Response HTTP_201_CREATED (Note n), fs1) →
  1 ≤ models.id n →
  get_note_endpoint settings (models.id n) fs1 = (Response HTTP_200_OK (Note n), fs1).
Proof.
  intros He Hpost Hid.
  destruct (create_note_endpoint_created _ _ _ _ _ _ _ He Hpost)
    as (title & db1 & -> & _ & Hcr & ->).
  destruct (create_note_inversion _ _ _ _ _ _ Hcr) as (t1 & c & -> & Hrow & _ & Hval).
  unfold get_note_endpoint.
  destruct (1 <=? models.id n) eqn:Hge; [|apply Z.leb_gt in Hge; lia].
  rewrite get_db_conn_read by (intros; apply get_note_keeps_database).
  unfold db.open_connection. rewrite He, lookup_partial_alter_eq.
  by rewrite get_note_run, Hrow, Hval.
Qed.

Import fixtures.

Lemma created_note_is_served_witness :
  db.ephemeral (config.notes_db_path default_settings) = false ∧
  create_note_endpoint default_settings clock_0930 (Some "B") None one_note_file =
    (Response HTTP_201_CREATED (Note note_2),
     (create_note_endpoint default_settings clock_0930 (Some "B") None one_note_file).2) ∧
  1 ≤ models.id note_2 ∧
  get_note_endpoint default_settings (models.id note_2)
    (create_note_endpoint default_settings clock_0930 (Some "B") None one_note_file).2 =
  (Response HTTP_200_OK (Note note_2),
   (create_note_endpoint default_settings clock_0930 (Some "B") None one_note_file).2).
Proof.
  assert (He : db.ephemeral (config.notes_db_path default_settings) = false) by reflexivity.
  assert (Hpost :
    create_note_endpoint default_settings clock_0930 (Some "B") None one_note_file =
    (Response HTTP_201_CREATED (Note note_2),
     (create_note_endpoint default_settings clock_0930 (Some "B") None one_note_file).2))
    by (vm_compute; reflexivity).
  assert (Hid : 1 ≤ models.id note_2) by (cbn; lia).
  split; [exact He|]. split; [exact Hpost|]. split; [exact Hid|].
  exact (created_note_is_served default_settings clock_0930 (Some "B") None one_note_file
           _ note_2 He Hpost Hid).
Defined.


(** X17. The list request returns at most [limit] notes and never more
    than 500, at most 100 when no limit is given; and it changes no file. *)
Theorem list_endpoint_bounded
    (settings : config.Settings) (offset limit : option Z) (fs fs1 : db.files)
    (l : list models.NoteOut) :
  list_notes_endpoint settings offset limit fs = (Response HTTP_200_OK (Notes l), fs1) →
  Z.of_nat (length l) ≤ default 100 limit ≤ 500 ∧ fs1 = fs.
Proof.
  unfold list_notes_endpoint.
  destruct ((0 <=? default 0 offset) && (1 <=? default 100 limit) &&
            (default 100 limit <=? 500)) eqn:Hv; [|done].
  apply andb_true_iff in Hv as [[Ho Hl1]%andb_true_iff Hl2].
  apply Z.leb_le in Ho, Hl1, Hl2.
  rewrite get_db_conn_read by (intros; apply list_notes_keeps_database).
  destruct (db.open_connection fs (config.notes_db_path settings)) as [t|]; [|done].
  destruct (repository.list_notes (default 0 offset) (default 100 limit) (Some t))
    as [[e|ns] db'] eqn:Hls; cbn [fst]; [done|].
  intros [= <- <-]. split; [|done].
  assert (Hlen := list_notes_page t (default 0 offset) (default 100 limit) ns).
  rewrite Hls in Hlen. specialize (Hlen ltac:(lia) ltac:(lia) eq_refl). lia.
Qed.


Lemma list_endpoint_bounded_witness :
  list_notes_endpoint default_settings None None one_note_file =
    (Response HTTP_200_OK
       (Notes [models.mk_NoteOut 1 "T" (Some "C") (mk_datetime 2024 5 17 9 30 0 0)
                                 (mk_datetime 2024 5 17 9 30 0 0)]),
     one_note_file) ∧
  Z.of_nat (length [models.mk_NoteOut 1 "T" (Some "C") (mk_datetime 2024 5 17 9 30 0 0)
                                      (mk_datetime 2024 5 17 9 30 0 0)])
    ≤ default 100 None ≤ 500 ∧
  one_note_file = one_note_file.
Proof.
  assert (H : list_notes_endpoint default_settings None None one_note_file =
    (Response HTTP_200_OK
       (Notes [models.mk_NoteOut 1 "T" (Some "C") (mk_datetime 2024 5 17 9 30 0 0)
                                 (mk_datetime 2024 5 17 9 30 0 0)]),
     one_note_file)) by (vm_compute; reflexivity).
  split; [exact H|].
  exact (list_endpoint_bounded default_settings None None one_note_file one_note_file _ H).
Defined.

Lemma result_mapM_error {A B} (f : A → result B) (l : list A) (e : exn) :
  result_mapM f l = inl e → ∃ x, x ∈ l ∧ f x = inl e.
Proof.
  induction l as [|x l IH]; cbn [result_mapM]; [done|].
  destruct (f x) as [e'|y] eqn:Hx; cbn.
  - intros [= <-]. exists x. split; [by left | done].
  - destruct (result_mapM f l) as [e'|ys]; cbn; [|done].
    intros [= <-]. destruct (IH eq_refl) as (x' & Hin & Hx').
    exists x'. split; [by right | done].
Qed.

(** On a database that has the table, no call of the repository ends in
    the error of a missing table, and the table is still there afterwards. *)
Lemma call_on_table (t : table) (k : calls.call) :
  (∃ t', calls.after (Some t) k = Some t') ∧
  match k with
  | calls.Create now ti co => (repository.create_note now ti co (Some t)).1 ≠ inl NoSuchTable
  | calls.Get i => (repository.get_note i (Some t)).1 ≠ inl NoSuchTable
  | calls.List o l => (repository.list_notes o l (Some t)).1 ≠ inl NoSuchTable
  | calls.Update now i ti co =>
      (repository.update_note now i ti co (Some t)).1 ≠ inl NoSuchTable
  | calls.Delete i => (repository.delete_note i (Some t)).1 ≠ inl NoSuchTable
  end.
Proof.
  split; [destruct (after_seq_mono t k) as (t' & ? & _); by exists t'|].
  destruct k as [now ti co|j|o l|now j ti co|j].
  - destruct (new_rowid t) as [e|v] eqn:Hv.
    + by rewrite (create_note_full now t ti co e Hv).
    + rewrite (create_note_run now t ti co v Hv). cbn [fst].
      intros H. by apply model_validate_error in H.
  - rewrite get_note_run. cbn [fst]. destruct (rows t !! j) as [c|]; [|done].
    destruct (models.model_validate (row_of j c)) as [e|n] eqn:Hval; [|done].
    apply model_validate_error in Hval as ->. done.
  - rewrite list_notes_run. cbn [fst]. intros H.
    apply result_mapM_error in H as (r & Hin & Hr).
    apply list_elem_of_fmap in Hin as ([i c] & -> & _). cbn [fst snd] in Hr.
    rewrite row_to_note_dict_row_of in Hr. cbn in Hr.
    by apply model_validate_error in Hr.
  - rewrite update_note_run. cbn [fst]. by destruct (rows t !! j).
  - rewrite delete_note_run. by destruct (rows t !! j).
Qed.

(** A request on files that hold the table at the configured path does not
    end in the error of a missing table, and leaves files that hold it. *)
Lemma handle_on_table (settings : config.Settings) (req : request) (fs : db.files) :
  db.ephemeral (config.notes_db_path settings) = false →
  is_Some (fs !! config.notes_db_path settings) →
  (handle settings req fs).1 ≠ Raised NoSuchTable ∧
  is_Some ((handle settings req fs).2 !! config.notes_db_path settings).
Proof.
  intros He [t Ht].
  destruct req as [now ti co|o l|i|now i ti co|i|]; cbn [handle].
  - unfold create_note_endpoint.
    destruct (payloads.NoteCreate_validate ti co) as [p|]; [|by split; [|exists t]].
    rewrite get_db_conn_file, Ht by done.
    destruct (call_on_table t (calls.Create now (payloads.title p) (payloads.content p)))
      as [[t' Ht'] Hne]. cbn [calls.after] in Ht'.
    destruct (repository.create_note now (payloads.title p) (payloads.content p) (Some t))
      as [[e|n] db1]; cbn [fst snd] in *; subst db1.
    + split; [congruence|]. rewrite lookup_partial_alter_eq. by exists t'.
    + split; [done|]. rewrite lookup_partial_alter_eq. by exists t'.
  - unfold list_notes_endpoint. case_match; [|by split; [|exists t]].
    rewrite get_db_conn_read by (intros; apply list_notes_keeps_database).
    unfold db.open_connection. rewrite He, Ht. cbn [fst snd].
    destruct (call_on_table t (calls.List (default 0 o) (default 100 l))) as [_ Hne].
    split; [|by exists t].
    destruct (repository.list_notes _ _ (Some t)).1; [congruence | done].
  - unfold get_note_endpoint. case_match; [|by split; [|exists t]].
    rewrite get_db_conn_read by (intros; apply get_note_keeps_database).
    unfold db.open_connection. rewrite He, Ht. cbn [fst snd].
    destruct (call_on_table t (calls.Get i)) as [_ Hne].
    split; [|by exists t].
    destruct (repository.get_note i (Some t)).1 as [e|[n|]]; [congruence | done | done].
  - rewrite update_note_endpoint_outcome. cbn [fst snd]. split; [|by exists t].
    destruct (payloads.NoteUpdate_validate ti co); [|done].
    case_match; [|done]. unfold db.open_connection. rewrite He, Ht.
    by destruct (rows t !! i).
  - unfold delete_note_endpoint. case_match; [|by split; [|exists t]].
    rewrite get_db_conn_file, Ht by done.
    destruct (call_on_table t (calls.Delete i)) as [[t' Ht'] Hne]. cbn [calls.after] in Ht'.
    destruct (repository.delete_note i (Some t)) as [[e|[|]] db1];
      cbn [fst snd] in *; subst db1;
      (split; [congruence || done | rewrite lookup_partial_alter_eq; by exists t']).
  - by split; [|exists t].
Qed.

(** X18. Once [on_startup] has run on a path that is a stored file, no
    request ends in the error of a missing table, however many requests were
    served before it. *)
Theorem startup_provides_table
    (settings : config.Settings) (fs : db.files) (reqs : list request) (req : request) :
  db.ephemeral (config.notes_db_path settings) = false →
  (handle settings req
     (foldl (λ f r, (handle settings r f).2) (on_startup settings fs).2 reqs)).1
  ≠ Raised NoSuchTable.
Proof.
  intros He.
  assert (Hstart : is_Some ((on_startup settings fs).2 !! config.notes_db_path settings)).
  { unfold on_startup. rewrite init_db_run, He. cbn [snd].
    destruct (fs !! config.notes_db_path settings) eqn:Hp; [by rewrite Hp|].
    by rewrite lookup_insert_eq. }
  revert Hstart. generalize (on_startup settings fs).2. intros fs0.
  revert fs0. induction reqs as [|r reqs IH]; intros fs0 H0; cbn [foldl].
  - by apply handle_on_table.
  - apply IH. by apply handle_on_table.
Qed.

Lemma startup_provides_table_witness :
  db.ephemeral (config.notes_db_path default_settings) = false ∧
  (handle default_settings (GET_note 2)
     (foldl (λ f r, (handle default_settings r f).2) (on_startup default_settings ∅).2
        [POST_notes clock_0930 (Some "A") None; DELETE_note 1])).1
  ≠ Raised NoSuchTable.
Proof.
  split; [reflexivity|].
  apply (startup_provides_table default_settings ∅
           [POST_notes clock_0930 (Some "A") None; DELETE_note 1] (GET_note 2)).
  reflexivity.
Defined.

(** ** What the requests keep *)

Import invariants fixtures.

(** A POST leaves the table it found, with at most one row more, and that
    row has the title of the validated body. *)
Lemma create_note_rows
    (now : datetime) (t : table) (ti : string) (co : option string) :
  ∃ t', (repository.create_note now ti co (Some t)).2 = Some t' ∧
        ∀ i c, rows t' !! i = Some c → rows t !! i = Some c ∨ title c = ti.
Proof.
  destruct (new_rowid t) as [e|v] eqn:Hv.
  - rewrite (create_note_full now t ti co e Hv). exists t. split; [done|]. by left.
  - rewrite (create_note_run now t ti co v Hv). cbn [snd].
    eexists. split; [reflexivity|]. cbn [rows]. intros i c.
    destruct (decide (i = v)) as [->|Hne].
    + rewrite lookup_insert_eq. intros [= <-]. by right.
    + rewrite lookup_insert_ne by done. by left.
Qed.

Lemma titled_partial_alter (fs : db.files) (p : string) (db1 : database) :
  titled fs →
  (∀ t1 i c, db1 = Some t1 → rows t1 !! i = Some c → title c ≠ "") →
  titled (partial_alter (λ _, db1) p fs).
Proof.
  intros Hfs Hdb q t i c Hq Hrow.
  destruct (decide (q = p)) as [->|Hne].
  - rewrite lookup_partial_alter_eq in Hq. by apply (Hdb t i c).
  - rewrite lookup_partial_alter_ne in Hq by done. by apply (Hfs q t i c).
Qed.

(** X19. No request stores an empty title: when every note in the files
    has a non-empty title, so has every note in the files the request
    leaves. *)
Theorem titles_stay_nonempty
    (settings : config.Settings) (req : request) (fs : db.files) :
  titled fs → titled (handle settings req fs).2.
Proof.
  intros Hfs.
  destruct req as [now ti co|o l|i|now i ti co|i|].
  - cbn [handle]. unfold create_note_endpoint, payloads.NoteCreate_validate.
    destruct ti as [s|]; [|done].
    destruct (1 <=? String.length s)%nat eqn:Hlen; [|done].
    cbn [payloads.title payloads.content].
    destruct (db.ephemeral (config.notes_db_path settings)) eqn:He.
    { by rewrite get_db_conn_ephemeral. }
    rewrite get_db_conn_file by done. cbn [fst snd].
    destruct (repository.create_note now s co (fs !! config.notes_db_path settings))
      as [r db1] eqn:Hcr. cbn [fst snd].
    apply titled_partial_alter; [done|]. intros t1 j c -> Hrow.
    destruct (fs !! config.notes_db_path settings) as [t|] eqn:Hp;
      [|by rewrite create_note_no_table in Hcr].
    destruct (create_note_rows now t s co) as (t' & Ht' & Hrows).
    rewrite Hcr in Ht'. cbn [snd] in Ht'. injection Ht' as <-.
    destruct (Hrows j c Hrow) as [Hold | ->].
    + by apply (Hfs (config.notes_db_path settings) t j c).
    + intros ->. discriminate Hlen.
  - cbn [handle]. by rewrite list_notes_endpoint_keeps_files.
  - cbn [handle]. by rewrite get_note_endpoint_keeps_files.
  - cbn [handle]. by rewrite update_note_endpoint_outcome.
  - cbn [handle]. unfold delete_note_endpoint. case_match; [|done].
    destruct (db.ephemeral (config.notes_db_path settings)) eqn:He.
    { by rewrite get_db_conn_ephemeral. }
    rewrite get_db_conn_file by done. cbn [fst snd].
    destruct (repository.delete_note i (fs !! config.notes_db_path settings))
      as [r db1] eqn:Hdel. cbn [fst snd].
    apply titled_partial_alter; [done|]. intros t1 j c -> Hrow.
    destruct (fs !! config.notes_db_path settings) as [t|] eqn:Hp; [|done].
    rewrite delete_note_run in Hdel.
    destruct (rows t !! i) eqn:Hi; injection Hdel as _ <-.
    + cbn [rows] in Hrow. apply lookup_delete_Some in Hrow as [_ Hrow].
      by apply (Hfs (config.notes_db_path settings) t j c).
    + by apply (Hfs (config.notes_db_path settings) t j c).
  - done.
Qed.

Lemma one_note_file_titled : titled one_note_file.
Proof.
  intros p t i c Hp Hrow. unfold one_note_file in Hp.
  apply lookup_singleton_Some in Hp as [_ <-]. unfold one_note in Hrow. cbn [rows] in Hrow.
  apply lookup_singleton_Some in Hrow as [_ <-]. done.
Qed.

Lemma titles_stay_nonempty_witness :
  titled one_note_file ∧
  titled (handle default_settings (POST_notes clock_0930 (Some "B") None) one_note_file).2.
Proof.
  split; [apply one_note_file_titled|].
  apply (titles_stay_nonempty default_settings (POST_notes clock_0930 (Some "B") None)
           one_note_file).
  apply one_note_file_titled.
Defined.
